(** * rechner.py: a whitelisting evaluator for arithmetic expressions

    A shallow embedding of [src/rechner.py].  The program hands the text to
    the interpreter's own parser ([ast.parse]), walks the tree to reject node
    classes outside a fixed list, and then reduces the tree recursively
    ([_eval_node]) against four module-level tables.

    What the interpreter supplies (the parser, the arithmetic of
    floating-point and complex numbers, the [math] module, [repr], the text
    of its own exceptions) is kept behind the record [Host].  Three pieces of
    the interpreter are written out, because the properties below evaluate
    them: the arithmetic of integers, the zero-divisor checks of [/], [//]
    and [%] on real numbers, and [math.sqrt].  Integers are unbounded; the
    limits of the machine (recursion depth, memory) are not modelled, and the
    properties that depend on them carry a bound instead ([max_shift] for the
    length of a left shift, [frames_available] for the nesting of a tree).

    The command line of lines 127-148 is modelled over the arguments and
    the lines of the input; what it needs of the interpreter besides ([str]
    of a value, [strip] of a line) is kept behind the record [Console].

    The semantics is that of Python 3.8 to 3.13, where [ast.Num], named in
    lines 53 and 115, still exists. *)

From Stdlib Require Import ZArith Floats Uint63.
From stdpp Require Import base option list gmap strings pretty.

Open Scope string_scope.
Open Scope list_scope.
Open Scope Z_scope.

(** ** Exceptions *)

(** The exception classes this program can let escape.  [EvalError] is the
    only class the module declares ([class EvalError(ValueError)], line 43);
    the others are the interpreter's. *)
Inductive exc_class : Type :=
  | EvalError
  | TypeError
  | ValueError
  | ZeroDivisionError
  | OverflowError
  | SyntaxError
  | KeyError
  | OtherError (name : string).

Definition class_name (c : exc_class) : string :=
  match c with
  | EvalError => "EvalError"
  | TypeError => "TypeError"
  | ValueError => "ValueError"
  | ZeroDivisionError => "ZeroDivisionError"
  | OverflowError => "OverflowError"
  | SyntaxError => "SyntaxError"
  | KeyError => "KeyError"
  | OtherError name => name
  end.

(** The classes below [Exception] that an instance of [c] is also an instance
    of, [c] first: what an [except] clause naming one of them would catch.
    [IndentationError] and [TabError] are the two classes the interpreter
    derives from [SyntaxError]. *)
Definition mro (c : exc_class) : list string :=
  match c with
  | EvalError => ["EvalError"; "ValueError"]
  | ZeroDivisionError => ["ZeroDivisionError"; "ArithmeticError"]
  | OverflowError => ["OverflowError"; "ArithmeticError"]
  | KeyError => ["KeyError"; "LookupError"]
  | OtherError name =>
      if bool_decide (name = "IndentationError")
      then ["IndentationError"; "SyntaxError"]
      else if bool_decide (name = "TabError")
      then ["TabError"; "IndentationError"; "SyntaxError"]
      else [name]
  | _ => [class_name c]
  end.

Definition caught_by (c : exc_class) (handler : string) : bool :=
  bool_decide (handler ∈ mro c).

(** A raised exception: its class and [str(e)]. *)
Record exception : Type := Exc { exc_type : exc_class; exc_msg : string }.

Inductive res (A : Type) : Type :=
  | Return (a : A)
  | Raise (e : exception).
Arguments Return {A} a.
Arguments Raise {A} e.

Definition raises {A} (r : res A) : Prop := ∃ e, r = Raise e.

(** ** Values *)

(** The objects a literal can hold and a variable is expected to hold. *)
Inductive value : Type :=
  | VInt (n : Z)
  | VBool (b : bool)
  | VFloat (x : float)
  | VComplex (re im : float)
  | VStr (s : string)
  | VBytes (s : string)
  | VNone
  | VEllipsis.

(** [isinstance(v, (int, float, complex))]; [bool] is a subclass of [int]. *)
Definition isinstance_number (v : value) : bool :=
  match v with
  | VInt _ | VBool _ | VFloat _ | VComplex _ _ => true
  | _ => false
  end.

(** ** Syntax trees, as [ast.parse(expr, mode="eval")] builds them *)

Inductive operator : Type :=
  | Add | Sub | Mult | MatMult | Div | Mod | Pow
  | LShift | RShift | BitOr | BitXor | BitAnd | FloorDiv.

Inductive unaryop : Type := Invert | Not | UAdd | USub.

Inductive expr_context : Type := Load | Store | Del.

(** The expression classes of the grammar that the program names nowhere. *)
Inductive other_expr : Type :=
  | BoolOp | NamedExpr | Lambda | IfExp | Dict | Set_ | ListComp | SetComp
  | DictComp | GeneratorExp | Await | Yield | YieldFrom | Compare
  | FormattedValue | JoinedStr | Subscript | Starred | List_ | Slice.

(** [Other] keeps no children: the walk raises on the node itself, the
    evaluator raises on it too, and neither looks below it. *)
#[local] Unset Elimination Schemes.
Inductive expr : Type :=
  | BinOp (left : expr) (op : operator) (right : expr)
  | UnaryOp (op : unaryop) (operand : expr)
  | Call (func : expr) (args : list expr) (keywords : list (option string * expr))
  | Constant (v : value)
  | Attribute (v : expr) (attr : string) (ctx : expr_context)
  | Name (id : string) (ctx : expr_context)
  | Tuple (elts : list expr) (ctx : expr_context)
  | Other (kind : other_expr).
#[local] Set Elimination Schemes.

#[global] Instance operator_eq_dec : EqDecision operator.
Proof. solve_decision. Defined.
#[global] Instance unaryop_eq_dec : EqDecision unaryop.
Proof. solve_decision. Defined.
#[global] Instance other_expr_eq_dec : EqDecision other_expr.
Proof. solve_decision. Defined.
#[global] Instance expr_context_eq_dec : EqDecision expr_context.
Proof. solve_decision. Defined.

(** Structural induction that also covers the trees held in the argument,
    keyword and element lists. *)
Section expr_induction.
Variable P : expr → Prop.
Hypothesis HBinOp : ∀ l o r, P l → P r → P (BinOp l o r).
Hypothesis HUnaryOp : ∀ o e, P e → P (UnaryOp o e).
Hypothesis HCall : ∀ f args kws,
  P f → Forall P args → Forall (λ kw, P kw.2) kws → P (Call f args kws).
Hypothesis HConstant : ∀ v, P (Constant v).
Hypothesis HAttribute : ∀ e a c, P e → P (Attribute e a c).
Hypothesis HName : ∀ id c, P (Name id c).
Hypothesis HTuple : ∀ elts c, Forall P elts → P (Tuple elts c).
Hypothesis HOther : ∀ k, P (Other k).

Fixpoint expr_ind (e : expr) : P e :=
  match e with
  | BinOp l o r => HBinOp l o r (expr_ind l) (expr_ind r)
  | UnaryOp o x => HUnaryOp o x (expr_ind x)
  | Call f args kws =>
      HCall f args kws (expr_ind f)
        ((fix go (l : list expr) : Forall P l :=
            match l with
            | [] => Forall_nil_2 P
            | x :: l' => Forall_cons_2 P x l' (expr_ind x) (go l')
            end) args)
        ((fix go (l : list (option string * expr)) : Forall (λ kw, P kw.2) l :=
            match l with
            | [] => Forall_nil_2 _
            | kw :: l' => Forall_cons_2 (λ kw, P kw.2) kw l' (expr_ind kw.2) (go l')
            end) kws)
  | Constant v => HConstant v
  | Attribute x a c => HAttribute x a c (expr_ind x)
  | Name id c => HName id c
  | Tuple elts c =>
      HTuple elts c
        ((fix go (l : list expr) : Forall P l :=
            match l with
            | [] => Forall_nil_2 P
            | x :: l' => Forall_cons_2 P x l' (expr_ind x) (go l')
            end) elts)
  | Other k => HOther k
  end.
End expr_induction.

(** *** Nodes and their classes, as [ast.walk] meets them *)

(** [ast.walk] yields every node of the tree: the [Expression] root, the
    expressions, and also the operator, context and [keyword] objects. *)
Inductive node : Type :=
  | NExpression (body : expr)
  | NExpr (e : expr)
  | NOperator (o : operator)
  | NUnaryop (o : unaryop)
  | NContext (c : expr_context)
  | NKeyword (arg : option string) (v : expr).

Inductive node_class : Type :=
  | cExpression | cBinOp | cUnaryOp | cCall | cConstant | cNum | cAttribute
  | cName | cTuple | cKeyword
  | cOperator (o : operator)
  | cUnaryop (o : unaryop)
  | cContext (c : expr_context)
  | cOther (k : other_expr).

#[global] Instance node_class_eq_dec : EqDecision node_class.
Proof. solve_decision. Defined.

Definition expr_class (e : expr) : node_class :=
  match e with
  | BinOp _ _ _ => cBinOp
  | UnaryOp _ _ => cUnaryOp
  | Call _ _ _ => cCall
  | Constant _ => cConstant
  | Attribute _ _ _ => cAttribute
  | Name _ _ => cName
  | Tuple _ _ => cTuple
  | Other k => cOther k
  end.

(** [type(n)] *)
Definition type_of (n : node) : node_class :=
  match n with
  | NExpression _ => cExpression
  | NExpr e => expr_class e
  | NOperator o => cOperator o
  | NUnaryop o => cUnaryop o
  | NContext c => cContext c
  | NKeyword _ _ => cKeyword
  end.

(** [isinstance(n, c)].  No class modelled here has a modelled subclass;
    [ast.Num] is the deprecated alias whose instance check holds of a
    [Constant] with an [int], [float] or [complex] value that is no [bool]. *)
Definition isinstance (n : node) (c : node_class) : bool :=
  match c, n with
  | cNum, NExpr (Constant (VInt _ | VFloat _ | VComplex _ _)) => true
  | cNum, _ => false
  | _, _ => bool_decide (type_of n = c)
  end.

(** [ast.iter_child_nodes]: the fields that hold nodes, in [_fields] order. *)
Definition iter_child_nodes (n : node) : list node :=
  match n with
  | NExpression body => [NExpr body]
  | NExpr (BinOp l o r) => [NExpr l; NOperator o; NExpr r]
  | NExpr (UnaryOp o e) => [NUnaryop o; NExpr e]
  | NExpr (Call f args kws) =>
      NExpr f :: (NExpr <$> args) ++ ((λ kw, NKeyword kw.1 kw.2) <$> kws)
  | NExpr (Constant _) => []
  | NExpr (Attribute e _ c) => [NExpr e; NContext c]
  | NExpr (Name _ c) => [NContext c]
  | NExpr (Tuple elts c) => (NExpr <$> elts) ++ [NContext c]
  | NExpr (Other _) => []
  | NOperator _ | NUnaryop _ | NContext _ => []
  | NKeyword _ e => [NExpr e]
  end.

(** The number of nodes of a tree: the walk's measure. *)
Fixpoint expr_size (e : expr) : nat :=
  match e with
  | BinOp l _ r => S (S (expr_size l + expr_size r))
  | UnaryOp _ x => S (S (expr_size x))
  | Call f args kws =>
      S (expr_size f + sum_list_with expr_size args
         + sum_list_with (λ kw, S (expr_size kw.2)) kws)
  | Constant _ => 1
  | Attribute x _ _ => S (S (expr_size x))
  | Name _ _ => 2
  | Tuple elts _ => S (S (sum_list_with expr_size elts))
  | Other _ => 1
  end.

Definition node_size (n : node) : nat :=
  match n with
  | NExpression body => S (expr_size body)
  | NExpr e => expr_size e
  | NOperator _ | NUnaryop _ | NContext _ => 1
  | NKeyword _ e => S (expr_size e)
  end.

(** [ast.walk]'s loop: pop the queue's head, append its children, yield it.
    The fuel bounds the number of iterations. *)
Fixpoint walk_queue (fuel : nat) (todo : list node) : list node :=
  match fuel, todo with
  | S fuel', n :: todo' => n :: walk_queue fuel' (todo' ++ iter_child_nodes n)
  | _, _ => []
  end.

(** [list(ast.walk(n))] *)
Definition ast_walk (n : node) : list node := walk_queue (node_size n) [n].

(** ** The interpreter *)

(** The callables the program's tables hold, and any other one.
    [op_add] is [operator.add], and so on; [math_attr name] is
    [getattr(math, name)]; [builtin name] stands for every other callable of
    the interpreter ([open], [__import__], [os.system], ...). *)
Inductive callable : Type :=
  | op_add | op_sub | op_mul | op_truediv | op_floordiv | op_mod | op_pow
  | op_xor | op_lshift | op_rshift
  | op_pos | op_neg | op_invert
  | math_attr (name : string)
  | builtin (name : string).

#[global] Instance callable_eq_dec : EqDecision callable.
Proof. solve_decision. Defined.

(** What the interpreter supplies and this development leaves open. *)
Record Host : Type := {
  (** [ast.parse(src, mode="eval").body], or the exception it raises *)
  ast_parse : string → res expr;
  (** [repr(v)] *)
  repr : value → string;
  (** [str(type(n))] *)
  str_type : node_class → string;
  (** [f] applied to [args] wherever the definitions below do not say what
      it is: floating-point and complex arithmetic, the [math] functions,
      operands of other types, a wrong number of arguments *)
  host_apply : callable → list value → res value;
  (** [str(e)] of the exception that application raises where the
      definitions below say which class it has *)
  host_msg : callable → list value → string;
}.

Section Interpreter.
Variable H : Host.

(** [int(v)] for the two integer types. *)
Definition as_int (v : value) : option Z :=
  match v with
  | VInt n => Some n
  | VBool b => Some (Z.b2z b)
  | _ => None
  end.

Definition Z_to_float (n : Z) : float :=
  if bool_decide (n < 0) then (- of_uint63 (of_Z (- n)))%float
  else of_uint63 (of_Z n).

(** [float(v)] of a real number, where the conversion is exact. *)
Definition as_float (v : value) : option float :=
  match v with
  | VFloat x => Some x
  | _ =>
      match as_int v with
      | Some n => if bool_decide (Z.abs n ≤ 2 ^ 53) then Some (Z_to_float n) else None
      | None => None
      end
  end.

(** Whether a real number ([int], [bool], [float]) is zero; [None] for a
    value that is no real number. *)
Definition real_is_zero (v : value) : option bool :=
  match v with
  | VFloat x => Some (x =? 0)%float
  | _ => (λ n, bool_decide (n = 0)) <$> as_int v
  end.

Definition is_division (f : callable) : bool :=
  match f with
  | op_truediv | op_floordiv | op_mod => true
  | _ => false
  end.

(** The longest left shift written out below.  A longer one is left to the
    interpreter, which builds the result only as far as its memory and its
    limit on the size of an integer go: [1 << 2**70] is an [OverflowError],
    "too many digits in integer". *)
Definition max_shift : Z := 2 ^ 16.

(** Whether [float(v)] overflows for an integer [v]: the conversion rounds
    to nearest, ties to even, so it does from [2**1024 - 2**970] on, half
    way between the largest float and [2**1024]. *)
Definition too_large_for_float (v : value) : bool :=
  match v with
  | VInt n => bool_decide (2 ^ 1024 - 2 ^ 970 ≤ Z.abs n)
  | _ => false
  end.

(** [f(x, y)] on two integers, where the result is an integer or an
    exception of a known class ([msg] is its text); [None] where the result
    is a float (true division, a negative exponent) or is left to the
    interpreter (a left shift by more than [max_shift]). *)
Definition int_binary (msg : string) (f : callable) (x y : Z) : option (res value) :=
  match f with
  | op_add => Some (Return (VInt (x + y)))
  | op_sub => Some (Return (VInt (x - y)))
  | op_mul => Some (Return (VInt (x * y)))
  | op_truediv =>
      if bool_decide (y = 0) then Some (Raise (Exc ZeroDivisionError msg)) else None
  | op_floordiv =>
      Some (if bool_decide (y = 0) then Raise (Exc ZeroDivisionError msg)
            else Return (VInt (x `div` y)))
  | op_mod =>
      Some (if bool_decide (y = 0) then Raise (Exc ZeroDivisionError msg)
            else Return (VInt (x `mod` y)))
  | op_pow => if bool_decide (0 ≤ y) then Some (Return (VInt (x ^ y))) else None
  | op_xor => Some (Return (VInt (Z.lxor x y)))
  | op_lshift =>
      if bool_decide (y < 0) then Some (Raise (Exc ValueError msg))
      else if bool_decide (y ≤ max_shift) then Some (Return (VInt (Z.shiftl x y)))
      else None
  | op_rshift =>
      Some (if bool_decide (y < 0) then Raise (Exc ValueError msg)
            else Return (VInt (Z.shiftr x y)))
  | _ => None
  end.

(** [f(a, b)] for the binary functions of [operator]: integers (and
    booleans, which are integers) as written out above, except that [^] of
    two booleans is a boolean; a zero divisor of real numbers, one of them
    a float, is a [ZeroDivisionError], unless the left operand is an integer
    too large for the float it is converted to first, which is an
    [OverflowError]; everything else is the interpreter's. *)
Definition apply_binary (f : callable) (a b : value) : res value :=
  match f, a, b with
  | op_xor, VBool p, VBool q => Return (VBool (xorb p q))
  | _, _, _ =>
      match as_int a, as_int b with
      | Some x, Some y =>
          match int_binary (host_msg H f [a; b]) f x y with
          | Some r => r
          | None => host_apply H f [a; b]
          end
      | _, _ =>
          match real_is_zero a, real_is_zero b with
          | Some _, Some true =>
              if is_division f
              then Raise (Exc (if too_large_for_float a then OverflowError
                               else ZeroDivisionError)
                            (host_msg H f [a; b]))
              else host_apply H f [a; b]
          | _, _ => host_apply H f [a; b]
          end
      end
  end.

(** [f(a)] for the unary functions of [operator]. *)
Definition apply_unary (f : callable) (a : value) : res value :=
  match f, a with
  | op_pos, VFloat x => Return (VFloat x)
  | op_neg, VFloat x => Return (VFloat (- x))
  | _, _ =>
      match f, as_int a with
      | op_pos, Some x => Return (VInt x)
      | op_neg, Some x => Return (VInt (- x))
      | op_invert, Some x => Return (VInt (Z.lnot x))
      | _, _ => host_apply H f [a]
      end
  end.

(** The wrapper the [math] module puts around a C function of one double:
    a NaN from a number, or an infinity from a finite number, is an error. *)
Definition math_1 (func : float → float) (can_overflow : bool)
    (msg : string) (x : float) : res value :=
  let r := func x in
  if is_nan r && negb (is_nan x) then Raise (Exc ValueError msg)
  else if is_infinity r && is_finite x then
    Raise (Exc (if can_overflow then OverflowError else ValueError) msg)
  else Return (VFloat r).

(** [getattr(math, name)] applied to [args].  [sqrt] is correctly rounded
    and therefore the same everywhere; it is written out for a real argument
    that converts to a float exactly.  The other functions are the C
    library's. *)
Definition apply_math (name : string) (args : list value) : res value :=
  match args with
  | [a] =>
      match as_float a with
      | Some x =>
          if bool_decide (name = "sqrt")
          then math_1 PrimFloat.sqrt false (host_msg H (math_attr name) args) x
          else host_apply H (math_attr name) args
      | None => host_apply H (math_attr name) args
      end
  | _ => host_apply H (math_attr name) args
  end.

(** [f] applied to the argument list [args]. *)
Definition apply_callable (f : callable) (args : list value) : res value :=
  match f, args with
  | (op_add | op_sub | op_mul | op_truediv | op_floordiv | op_mod | op_pow
     | op_xor | op_lshift | op_rshift), [a; b] => apply_binary f a b
  | (op_pos | op_neg | op_invert), [a] => apply_unary f a
  | math_attr name, _ => apply_math name args
  | _, _ => host_apply H f args
  end.

End Interpreter.

(** ** The module's state *)

Definition operator_index (o : operator) : nat :=
  match o with
  | Add => 0 | Sub => 1 | Mult => 2 | MatMult => 3 | Div => 4 | Mod => 5
  | Pow => 6 | LShift => 7 | RShift => 8 | BitOr => 9 | BitXor => 10
  | BitAnd => 11 | FloorDiv => 12
  end%nat.

Definition operator_at (n : nat) : operator :=
  match n with
  | 0 => Add | 1 => Sub | 2 => Mult | 3 => MatMult | 4 => Div | 5 => Mod
  | 6 => Pow | 7 => LShift | 8 => RShift | 9 => BitOr | 10 => BitXor
  | 11 => BitAnd | _ => FloorDiv
  end%nat.

Lemma operator_at_index o : operator_at (operator_index o) = o.
Proof. by destruct o. Qed.

#[global] Instance operator_countable : Countable operator :=
  inj_countable' operator_index operator_at operator_at_index.

Definition unaryop_index (o : unaryop) : nat :=
  match o with Invert => 0 | Not => 1 | UAdd => 2 | USub => 3 end%nat.

Definition unaryop_at (n : nat) : unaryop :=
  match n with 0 => Invert | 1 => Not | 2 => UAdd | _ => USub end%nat.

Lemma unaryop_at_index o : unaryop_at (unaryop_index o) = o.
Proof. by destruct o. Qed.

#[global] Instance unaryop_countable : Countable unaryop :=
  inj_countable' unaryop_index unaryop_at unaryop_at_index.

(** Supported binary operators (lines 10-21). *)
Definition _BINOPS : gmap operator callable :=
  list_to_map
    [ (Add, op_add); (Sub, op_sub); (Mult, op_mul); (Div, op_truediv);
      (FloorDiv, op_floordiv); (Mod, op_mod); (Pow, op_pow); (BitXor, op_xor);
      (LShift, op_lshift); (RShift, op_rshift) ].

(** Supported unary operators (lines 24-28). *)
Definition _UNARYOPS : gmap unaryop callable :=
  list_to_map [ (UAdd, op_pos); (USub, op_neg); (Invert, op_invert) ].

Definition allowed_func_names : list string :=
  [ "sin"; "cos"; "tan"; "asin"; "acos"; "atan";
    "sinh"; "cosh"; "tanh";
    "log"; "log10"; "log2"; "exp"; "sqrt"; "ceil"; "floor"; "fabs";
    "degrees"; "radians"; "pow"; "factorial" ].

(** Whitelisted math functions (lines 31-39): a comprehension over the names. *)
Definition _ALLOWED_FUNCS : gmap string callable :=
  list_to_map ((λ name, (name, math_attr name)) <$> allowed_func_names).

(** [math.pi], [math.e], [math.tau], [math.inf], [math.nan] (line 40). *)
Definition _ALLOWED_CONSTS : gmap string value :=
  list_to_map
    [ ("pi", VFloat 0x1.921fb54442d18p+1); ("e", VFloat 0x1.5bf0a8b145769p+1);
      ("tau", VFloat 0x1.921fb54442d18p+2); ("inf", VFloat infinity);
      ("nan", VFloat nan) ].

#[global] Arguments _BINOPS : simpl never.
#[global] Arguments _UNARYOPS : simpl never.
#[global] Arguments _ALLOWED_FUNCS : simpl never.
#[global] Arguments _ALLOWED_CONSTS : simpl never.

(** The mutable objects an evaluation can reach: the four module-level
    dictionaries and the dictionary built from the caller's keyword
    arguments. *)
Record state : Type := State {
  g_BINOPS : gmap operator callable;
  g_UNARYOPS : gmap unaryop callable;
  g_ALLOWED_FUNCS : gmap string callable;
  g_ALLOWED_CONSTS : gmap string value;
  variables : gmap string value;
}.

(** The state after the module is imported, at a call with keyword
    arguments [vars]. *)
Definition at_import (vars : gmap string value) : state :=
  State _BINOPS _UNARYOPS _ALLOWED_FUNCS _ALLOWED_CONSTS vars.

(** ** Computations *)

(** What an evaluation leaves visible besides its result: the parser runs
    and the callables applied, in order. *)
Inductive event : Type :=
  | Parsed (src : string)
  | Called (f : callable) (args : list value).

Record outcome (A : Type) : Type := Outcome {
  result : res A;
  final : state;
  trace : list event;
}.
Arguments Outcome {A} _ _ _.
Arguments result {A} _.
Arguments final {A} _.
Arguments trace {A} _.

(** A computation reads and may write the state, returns or raises, and
    leaves a trace. *)
Definition M (A : Type) : Type := state → outcome A.

Definition ret {A} (a : A) : M A := λ σ, Outcome (Return a) σ [].

Definition raise {A} (e : exception) : M A := λ σ, Outcome (Raise e) σ [].

Definition bind {A B} (m : M A) (k : A → M B) : M B := λ σ,
  let o := m σ in
  match result o with
  | Return a =>
      let o' := k a (final o) in
      Outcome (result o') (final o') (trace o ++ trace o')
  | Raise e => Outcome (Raise e) (final o) (trace o)
  end.

(** [try: m except ...: handler] *)
Definition try_except {A} (m : M A) (handler : exception → M A) : M A := λ σ,
  let o := m σ in
  match result o with
  | Return a => o
  | Raise e =>
      let o' := handler e (final o) in
      Outcome (result o') (final o') (trace o ++ trace o')
  end.

Definition gets {A} (f : state → A) : M A := λ σ, Outcome (Return (f σ)) σ [].

(** [variables[k] = v], a write.  [rechner.py] has no statement of this
    kind; the definition shows what the frame property below rules out. *)
Definition setitem_variable (k : string) (v : value) : M unit := λ σ,
  Outcome (Return tt)
    (State (g_BINOPS σ) (g_UNARYOPS σ) (g_ALLOWED_FUNCS σ) (g_ALLOWED_CONSTS σ)
       (<[k:=v]> (variables σ)))
    [].

Notation "x <- m ;; k" := (bind m (λ x, k))
  (at level 100, m at next level, right associativity,
   format "'[v' x  <-  m  ;;  '/' k ']'").

(** [d[k]]; the [KeyError] carries the key, whose text is not needed here. *)
Definition getitem `{Countable K} {V} (d : gmap K V) (k : K) : M V :=
  match d !! k with
  | Some v => ret v
  | None => raise (Exc KeyError "")
  end.

(** [k in d] *)
Definition contains `{Countable K} {V} (d : gmap K V) (k : K) : bool :=
  bool_decide (is_Some (d !! k)).

(** [[f a for a in l]] *)
Fixpoint for_each {A B} (f : A → M B) (l : list A) : M (list B) :=
  match l with
  | [] => ret []
  | a :: l' => b <- f a;; bs <- for_each f l';; ret (b :: bs)
  end.

(** ** The program *)

Section Program.
Variable H : Host.

(** A call of a callable: the interpreter applies it; the trace records it. *)
Definition call (f : callable) (args : list value) : M value := λ σ,
  Outcome (apply_callable H f args) σ [Called f args].

(** [ast.parse(src, mode="eval")] *)
Definition parse (src : string) : M expr := λ σ,
  Outcome (ast_parse H src) σ [Parsed src].

(** Recursive evaluation of AST nodes (lines 47-94).  [names] is the
    dictionary [variables] of the state.  The test [isinstance(node, ast.Num)]
    of line 53 holds of [Constant] nodes only, which line 49 has taken, so
    the branch is never entered. *)
Fixpoint _eval_node (node : expr) : M value :=
  match node with
  | Constant v =>
      if isinstance_number v then ret v
      else raise (Exc EvalError ("Unsupported constant: " +:+ repr H v))
  | Name id _ =>
      names <- gets variables;;
      if contains names id then getitem names id
      else
        consts <- gets g_ALLOWED_CONSTS;;
        if contains consts id then
          consts <- gets g_ALLOWED_CONSTS;;
          getitem consts id
        else raise (Exc EvalError ("Unknown identifier: " +:+ id))
  | UnaryOp op operand =>
      let op_type := op in
      unaryops <- gets g_UNARYOPS;;
      if contains unaryops op_type then
        val <- _eval_node operand;;
        unaryops <- gets g_UNARYOPS;;
        f <- getitem unaryops op_type;;
        call f [val]
      else
        raise (Exc EvalError
                 ("Unsupported unary operator: " +:+ str_type H (cUnaryop op_type)))
  | BinOp l op r =>
      left <- _eval_node l;;
      right <- _eval_node r;;
      let op_type := op in
      binops <- gets g_BINOPS;;
      if contains binops op_type then
        binops <- gets g_BINOPS;;
        f <- getitem binops op_type;;
        call f [left; right]
      else
        raise (Exc EvalError
                 ("Unsupported binary operator: " +:+ str_type H (cOperator op_type)))
  | Call func args _ =>
      match func with
      | Name fname _ =>
          funcs <- gets g_ALLOWED_FUNCS;;
          if negb (contains funcs fname) then
            raise (Exc EvalError ("Function not allowed: " +:+ fname))
          else
            args <- for_each _eval_node args;;
            funcs <- gets g_ALLOWED_FUNCS;;
            f <- getitem funcs fname;;
            call f args
      | _ => raise (Exc EvalError "Only direct function calls are allowed")
      end
  | _ =>
      raise (Exc EvalError
               ("Unsupported expression element: " +:+ str_type H (expr_class node)))
  end.

(** The classes the walk of lines 113-122 lets pass. *)
Definition allowed_node_types : list node_class :=
  [ cExpression; cBinOp; cUnaryOp; cCall;
    cContext Load; cName; cConstant; cNum;
    cOperator Pow; cOperator Add; cOperator Sub; cOperator Mult; cOperator Div;
    cOperator Mod; cOperator FloorDiv; cUnaryop UAdd; cUnaryop USub;
    cUnaryop Invert; cOperator LShift; cOperator RShift; cOperator BitXor;
    cTuple ].

(** [isinstance(n, (c1, c2, ...))] *)
Definition isinstance_any (n : node) (cs : list node_class) : bool :=
  existsb (isinstance n) cs.

(** The loop of lines 113-122 over the nodes [ast.walk] yields. *)
Fixpoint check_nodes (nodes : list node) : M unit :=
  match nodes with
  | [] => ret tt
  | n :: rest =>
      if isinstance_any n allowed_node_types then check_nodes rest
      else raise (Exc EvalError
                    ("Disallowed expression element: " +:+ str_type H (type_of n)))
  end.

(** [evaluate(expr, /, **variables)] (lines 97-124); the keyword arguments
    are the dictionary [variables] of the state the call starts in. *)
Definition evaluate (expr : value) : M value :=
  match expr with
  | VStr src =>
      parsed <- try_except (parse src)
                 (λ e, if caught_by (exc_type e) "SyntaxError"
                       then raise (Exc EvalError ("Syntax error: " +:+ exc_msg e))
                       else raise e);;
      _ <- check_nodes (ast_walk (NExpression parsed));;
      _eval_node parsed
  | _ => raise (Exc TypeError "expr must be a string")
  end.

End Program.

#[global] Arguments isinstance_any : simpl never.
#[global] Arguments contains : simpl never.
#[global] Arguments bind : simpl never.
#[global] Arguments try_except : simpl never.

(** ** A host to run the program on

    [cpython] answers as CPython 3.11 does on the texts listed below
    ([quoted_sources] holds what [ast.dump] prints for them), on the text of
    the exceptions of the operations written out above, on [str(type(n))] and
    on the [repr] of a string without quotes or escapes.  It is what the
    closed examples are computed with.  Beyond that it is a stub: every other
    text is a syntax error to it and every application left to the host is
    refused, and no example below depends on either. *)

Definition node_class_name (c : node_class) : string :=
  match c with
  | cExpression => "Expression" | cBinOp => "BinOp" | cUnaryOp => "UnaryOp"
  | cCall => "Call" | cConstant => "Constant" | cNum => "Num"
  | cAttribute => "Attribute" | cName => "Name" | cTuple => "Tuple"
  | cKeyword => "keyword"
  | cOperator o =>
      match o with
      | Add => "Add" | Sub => "Sub" | Mult => "Mult" | MatMult => "MatMult"
      | Div => "Div" | Mod => "Mod" | Pow => "Pow" | LShift => "LShift"
      | RShift => "RShift" | BitOr => "BitOr" | BitXor => "BitXor"
      | BitAnd => "BitAnd" | FloorDiv => "FloorDiv"
      end
  | cUnaryop o =>
      match o with
      | Invert => "Invert" | Not => "Not" | UAdd => "UAdd" | USub => "USub"
      end
  | cContext c =>
      match c with Load => "Load" | Store => "Store" | Del => "Del" end
  | cOther k =>
      match k with
      | BoolOp => "BoolOp" | NamedExpr => "NamedExpr" | Lambda => "Lambda"
      | IfExp => "IfExp" | Dict => "Dict" | Set_ => "Set" | ListComp => "ListComp"
      | SetComp => "SetComp" | DictComp => "DictComp"
      | GeneratorExp => "GeneratorExp" | Await => "Await" | Yield => "Yield"
      | YieldFrom => "YieldFrom" | Compare => "Compare"
      | FormattedValue => "FormattedValue" | JoinedStr => "JoinedStr"
      | Subscript => "Subscript" | Starred => "Starred" | List_ => "List"
      | Slice => "Slice"
      end
  end.

Definition int_lit (n : Z) : expr := Constant (VInt n).
Definition str_lit (s : string) : expr := Constant (VStr s).
Definition name (id : string) : expr := Name id Load.
Definition call_name (f : string) (args : list expr) : expr := Call (name f) args [].

(** [ast.dump] of the expressions the specification quotes. *)
Definition quoted_sources : list (string * expr) :=
  [ ("2 + 3", BinOp (int_lit 2) Add (int_lit 3));
    ("2 ** 3 ** 2", BinOp (int_lit 2) Pow (BinOp (int_lit 3) Pow (int_lit 2)));
    ("-7 // 2", BinOp (UnaryOp USub (int_lit 7)) FloorDiv (int_lit 2));
    ("-7 % 2", BinOp (UnaryOp USub (int_lit 7)) Mod (int_lit 2));
    ("1/0", BinOp (int_lit 1) Div (int_lit 0));
    ("1 % 0", BinOp (int_lit 1) Mod (int_lit 0));
    ("sqrt(-1)", call_name "sqrt" [UnaryOp USub (int_lit 1)]);
    ("os.system('ls')",
       Call (Attribute (name "os") "system" Load) [str_lit "ls"] []);
    ("__import__('os')", call_name "__import__" [str_lit "os"]);
    ("open('f')", call_name "open" [str_lit "f"]);
    ("1/0 + open('f')",
       BinOp (BinOp (int_lit 1) Div (int_lit 0)) Add (call_name "open" [str_lit "f"]));
    ("x + 1", BinOp (name "x") Add (int_lit 1));
    ("pi", name "pi");
    ("2j", Constant (VComplex 0 2));
    ("'ls'", str_lit "ls") ].

Definition quoted_syntax_errors : list (string * string) :=
  [ ("", "invalid syntax (<unknown>, line 0)");
    ("(", "'(' was never closed (<unknown>, line 1)") ].

Definition cpython_parse (src : string) : res expr :=
  match (list_to_map quoted_sources : gmap string expr) !! src with
  | Some e => Return e
  | None =>
      Raise (Exc SyntaxError
               (default "invalid syntax (<unknown>, line 1)"
                  ((list_to_map quoted_syntax_errors : gmap string string) !! src)))
  end.

Definition cpython_msg (f : callable) (args : list value) : string :=
  let integers := forallb (λ v, bool_decide (is_Some (as_int v))) args in
  let too_large := existsb too_large_for_float args in
  match f with
  | op_truediv =>
      if integers then "division by zero"
      else if too_large then "int too large to convert to float"
      else "float division by zero"
  | op_floordiv =>
      if integers then "integer division or modulo by zero"
      else if too_large then "int too large to convert to float"
      else "float floor division by zero"
  | op_mod =>
      if integers then "integer modulo by zero"
      else if too_large then "int too large to convert to float"
      else "float modulo"
  | op_lshift | op_rshift => "negative shift count"
  | math_attr _ => "math domain error"
  | _ => ""
  end.

Definition cpython : Host := {|
  ast_parse := cpython_parse;
  repr v := match v with VStr s => "'" +:+ s +:+ "'" | _ => "" end;
  str_type c := "<class 'ast." +:+ node_class_name c +:+ "'>";
  host_apply f args := Raise (Exc (OtherError "NotImplementedError") "");
  host_msg := cpython_msg;
|}.

Definition run (src : string) (vars : gmap string value) : outcome value :=
  evaluate cpython (VStr src) (at_import vars).

(** ** The nodes of a tree *)

(** Every node of the tree below an expression, the expression first, its
    children in field order; the operator, context and keyword objects
    count. *)
Fixpoint expr_nodes (e : expr) : list node :=
  NExpr e ::
  match e with
  | BinOp l o r => expr_nodes l ++ NOperator o :: expr_nodes r
  | UnaryOp o x => NUnaryop o :: expr_nodes x
  | Call f args kws =>
      expr_nodes f ++ (args ≫= expr_nodes)
        ++ (kws ≫= λ kw, NKeyword kw.1 kw.2 :: expr_nodes kw.2)
  | Constant _ => []
  | Attribute x _ c => expr_nodes x ++ [NContext c]
  | Name _ c => [NContext c]
  | Tuple elts c => (elts ≫= expr_nodes) ++ [NContext c]
  | Other _ => []
  end.

Definition subnodes (n : node) : list node :=
  match n with
  | NExpr e => expr_nodes e
  | NExpression body => n :: expr_nodes body
  | NKeyword _ e => n :: expr_nodes e
  | _ => [n]
  end.

(** The expressions of the tree, the same way. *)
Fixpoint subexprs (e : expr) : list expr :=
  e ::
  match e with
  | BinOp l _ r => subexprs l ++ subexprs r
  | UnaryOp _ x => subexprs x
  | Call f args kws => subexprs f ++ (args ≫= subexprs) ++ (kws ≫= λ kw, subexprs kw.2)
  | Attribute x _ _ => subexprs x
  | Tuple elts _ => elts ≫= subexprs
  | Constant _ | Name _ _ | Other _ => []
  end.

(** A node the walk of [evaluate] raises on. *)
Definition disallowed (n : node) : bool :=
  negb (isinstance_any n allowed_node_types).

(** A call that [_eval_node] refuses: the target is no plain name, or a name
    that is no key of the function table. *)
Definition refused_call (e : expr) : bool :=
  match e with
  | Call (Name f _) _ _ => negb (contains _ALLOWED_FUNCS f)
  | Call _ _ _ => true
  | _ => false
  end.

(** The expression holds something outside the whitelist: a node of a class
    the walk does not let pass, or a call of anything but a whitelisted
    name. *)
Definition reaches_outside (body : expr) : Prop :=
  Exists (λ n, disallowed n = true) (subnodes (NExpression body))
  ∨ Exists (λ e, refused_call e = true) (subexprs body).

(** The callables of the three tables. *)
Definition in_tables (σ : state) (f : callable) : Prop :=
  (∃ o, g_BINOPS σ !! o = Some f)
  ∨ (∃ o, g_UNARYOPS σ !! o = Some f)
  ∨ (∃ name, g_ALLOWED_FUNCS σ !! name = Some f).

(** The callables the tables hold after import, listed. *)
Definition whitelist : list callable :=
  [ op_add; op_sub; op_mul; op_truediv; op_floordiv; op_mod; op_pow; op_xor;
    op_lshift; op_rshift; op_pos; op_neg; op_invert ]
  ++ (math_attr <$> allowed_func_names).

(** An event that stays within the tables: the parser, or a call of a
    callable one of the tables holds. *)
Definition event_ok (σ : state) (ev : event) : Prop :=
  match ev with
  | Parsed _ => True
  | Called f _ => in_tables σ f
  end.

(** A computation that leaves the state as it found it and calls nothing
    but the tables' callables. *)
Definition contained {A} (m : M A) : Prop :=
  ∀ σ, final (m σ) = σ ∧ Forall (event_ok σ) (trace (m σ)).

(** ** Fragments of the syntax *)

(** The trees the walk of [evaluate] lets pass, read off its list of
    classes: the ten binary and three unary operators, calls without keyword
    arguments, names that are read, literals and tuples. *)
Fixpoint supported (e : expr) : bool :=
  match e with
  | BinOp l o r => supported l && contains _BINOPS o && supported r
  | UnaryOp o x => contains _UNARYOPS o && supported x
  | Call f args kws =>
      supported f && forallb supported args
      && match kws with [] => true | _ :: _ => false end
  | Constant _ => true
  | Name _ c => bool_decide (c = Load)
  | Tuple elts c => forallb supported elts && bool_decide (c = Load)
  | Attribute _ _ _ | Other _ => false
  end.

(** The trees on which [_eval_node] has no [raise] of its own to reach in
    state [σ]: numeric literals, names that are a variable or a constant,
    operators of the tables, direct calls of the function table's names. *)
Fixpoint evaluable (σ : state) (e : expr) : bool :=
  match e with
  | BinOp l o r => evaluable σ l && evaluable σ r && contains (g_BINOPS σ) o
  | UnaryOp o x => contains (g_UNARYOPS σ) o && evaluable σ x
  | Call (Name f _) args _ =>
      contains (g_ALLOWED_FUNCS σ) f && forallb (evaluable σ) args
  | Call _ _ _ => false
  | Constant v => isinstance_number v
  | Name id _ => contains (variables σ) id || contains (g_ALLOWED_CONSTS σ) id
  | Attribute _ _ _ | Tuple _ _ | Other _ => false
  end.

(** The names [_eval_node] looks up as values: the target of a call and
    the keyword arguments are not among them. *)
Fixpoint names_read (e : expr) : list string :=
  match e with
  | BinOp l _ r => names_read l ++ names_read r
  | UnaryOp _ x => names_read x
  | Call (Name _ _) args _ => args ≫= names_read
  | Name id _ => [id]
  | _ => []
  end.

(** The operator and call nodes [_eval_node] reduces. *)
Fixpoint applications (e : expr) : nat :=
  match e with
  | BinOp l _ r => S (applications l + applications r)
  | UnaryOp _ x => S (applications x)
  | Call (Name _ _) args _ => S (sum_list_with applications args)
  | _ => 0
  end.

(** Two states with the same tables. *)
(** The frames [_eval_node] stacks on [e]: one for each nested call of
    itself, and one for the list comprehension of line 88 around the arguments
    of a call (a frame of its own up to Python 3.11). *)
Fixpoint frames (e : expr) : nat :=
  match e with
  | BinOp l _ r => S (frames l `max` frames r)
  | UnaryOp _ x => S (frames x)
  | Call (Name _ _) args _ => S (S (max_list (frames <$> args)))
  | _ => 1
  end.

(** The interpreter gives up a recursion with [RecursionError] at its
    recursion limit, 1000 frames unless it is told otherwise.
    [frames_available] leaves a hundred of them to [evaluate] and its
    callers; a tree that needs no more is evaluated as the definitions above
    say. *)
Definition frames_available : nat := 900.

Definition same_tables (σ σ' : state) : Prop :=
  g_BINOPS σ = g_BINOPS σ' ∧ g_UNARYOPS σ = g_UNARYOPS σ'
  ∧ g_ALLOWED_FUNCS σ = g_ALLOWED_FUNCS σ'
  ∧ g_ALLOWED_CONSTS σ = g_ALLOWED_CONSTS σ'.

(** An exception is the program's own, raised on a tree outside the
    evaluable fragment, or it is what the last callable applied has raised. *)
Definition own_or_applied (H : Host) (σ : state) (e : expr) (t : list event)
    (exn : exception) : Prop :=
  (evaluable σ e = false ∧ exc_type exn = EvalError)
  ∨ (∃ f args, last t = Some (Called f args) ∧ in_tables σ f
               ∧ apply_callable H f args = Raise exn).


(** ** The command line (lines 127-148) *)

(** What the command line needs of the interpreter besides [Host]:
    [str(v)], which [print] calls and which can raise (for an integer of
    too many digits, say), and [str.strip()]. *)
Record Console : Type := {
  str_value : value → res string;
  strip : string → string;
}.

(** [issubclass(c, Exception)]: of the interpreter's classes only these few
    derive from [BaseException] directly. *)
Definition is_Exception (c : exc_class) : bool :=
  match c with
  | OtherError name =>
      bool_decide (name ∉ ["BaseException"; "BaseExceptionGroup"; "GeneratorExit";
                           "KeyboardInterrupt"; "SystemExit"])
  | _ => true
  end.

(** [isinstance(e, KeyboardInterrupt)] *)
Definition is_KeyboardInterrupt (c : exc_class) : bool :=
  match c with
  | OtherError name => bool_decide (name = "KeyboardInterrupt")
  | _ => false
  end.

(** How the process ends: it runs to the end of the block, [sys.exit(code)]
    is called, or an exception is caught nowhere. *)
Inductive ending : Type :=
  | Completed
  | SysExit (code : Z)
  | Uncaught (e : exception).

(** A run of the block: the lines printed, how it ended, the state it left
    and the trace of its evaluations. *)
Record session : Type := Session {
  printed : list string;
  ended : ending;
  after : state;
  events : list event;
}.

(** A call with keyword arguments [vars]: they become the dictionary
    [variables]. *)
Definition with_kwargs {A} (vars : gmap string value) (m : M A) : M A := λ σ,
  m (State (g_BINOPS σ) (g_UNARYOPS σ) (g_ALLOWED_FUNCS σ) (g_ALLOWED_CONSTS σ) vars).

Section CommandLine.
Variable H : Host.
Variable C : Console.

(** [print(r)] for the outcome of an evaluation: the line it writes, or the
    exception of the evaluation or of [str]. *)
Definition print_line (r : res value) : res string :=
  match r with
  | Return v => str_value C v
  | Raise e => Raise e
  end.

(** Lines 129-136: the arguments joined by spaces are one expression. *)
Definition argv_mode (args : list string) (σ : state) : session :=
  let expr := String.concat " " args in
  let o := with_kwargs ∅ (evaluate H (VStr expr)) σ in
  match result o with
  | Raise e =>
      if is_Exception (exc_type e)
      then Session ["Error: " +:+ exc_msg e] (SysExit 2) (final o) (trace o)
      else Session [] (Uncaught e) (final o) (trace o)
  | Return v =>
      match str_value C v with
      | Return s => Session [s] Completed (final o) (trace o)
      | Raise e => Session [] (Uncaught e) (final o) (trace o)
      end
  end.

(** Lines 138-148: one expression a line, blank lines skipped. *)
Fixpoint stdin_mode (lines : list string) (σ : state) : session :=
  match lines with
  | [] => Session [] Completed σ []
  | line :: rest =>
      let line := strip C line in
      if bool_decide (line = "") then stdin_mode rest σ
      else
        let o := with_kwargs ∅ (evaluate H (VStr line)) σ in
        let continue text :=
          let s := stdin_mode rest (final o) in
          Session (text :: printed s) (ended s) (after s) (trace o ++ events s) in
        match print_line (result o) with
        | Return text => continue text
        | Raise e =>
            if is_Exception (exc_type e) then continue ("Error: " +:+ exc_msg e)
            else if is_KeyboardInterrupt (exc_type e)
            then Session [] Completed (final o) (trace o)
            else Session [] (Uncaught e) (final o) (trace o)
        end
  end.

(** The block under [if __name__ == "__main__"]. *)
Definition main (argv stdin : list string) (σ : state) : session :=
  match argv with
  | _ :: arg :: args => argv_mode (arg :: args) σ
  | _ => stdin_mode stdin σ
  end.

(** What the loop prints for one line that is not blank. *)
Definition report (σ : state) (line : string) : string :=
  match print_line (result (with_kwargs ∅ (evaluate H (VStr line)) σ)) with
  | Return text => text
  | Raise e => "Error: " +:+ exc_msg e
  end.

(** The line is answered by a value that can be printed or by an exception
    that [except Exception] catches. *)
Definition answered (σ : state) (line : string) : Prop :=
  ∀ e, print_line (result (with_kwargs ∅ (evaluate H (VStr line)) σ)) = Raise e →
       is_Exception (exc_type e) = true.

End CommandLine.

(** The state in which a call without keyword arguments starts: the tables
    as they are, no variables. *)
Definition fresh_call (σ : state) : state :=
  State (g_BINOPS σ) (g_UNARYOPS σ) (g_ALLOWED_FUNCS σ) (g_ALLOWED_CONSTS σ) ∅.

(** ** A console to run the command line on

    [cpython_console] answers as CPython 3.11 does for [str] of an integer,
    a boolean, a string, [None] and [...], and for [strip] of a text of ASCII
    characters; for the other values it is a stub, and no example below
    depends on them.  [cpython_cli] is [cpython] with one more text parsed. *)

Definition isspace (c : Ascii.ascii) : bool :=
  let n := Ascii.nat_of_ascii c in
  bool_decide ((9 ≤ n ∧ n ≤ 13) ∨ (28 ≤ n ∧ n ≤ 32))%nat.

Fixpoint lstrip (s : list Ascii.ascii) : list Ascii.ascii :=
  match s with
  | c :: s' => if isspace c then lstrip s' else s
  | [] => []
  end.

Definition py_strip (s : string) : string :=
  String.string_of_list_ascii (rev (lstrip (rev (lstrip (String.list_ascii_of_string s))))).

Definition int_max_str_digits : Z := 4300.

Definition digits_msg : string :=
  "Exceeds the limit (4300 digits) for integer string conversion; use sys.set_int_max_str_digits() to increase the limit".

Definition py_str (v : value) : res string :=
  match v with
  | VInt n =>
      if bool_decide (10 ^ int_max_str_digits ≤ Z.abs n)
      then Raise (Exc ValueError digits_msg)
      else Return (pretty n)
  | VBool b => Return (if b then "True" else "False")
  | VStr s => Return s
  | VNone => Return "None"
  | VEllipsis => Return "Ellipsis"
  | _ => Return ""
  end.

Definition cpython_console : Console := {| str_value := py_str; strip := py_strip |}.

Definition cpython_cli : Host := {|
  ast_parse src :=
    if bool_decide (src = "10 ** 4300")
    then Return (BinOp (int_lit 10) Pow (int_lit 4300))
    else cpython_parse src;
  repr := repr cpython;
  str_type := str_type cpython;
  host_apply := host_apply cpython;
  host_msg := host_msg cpython;
|}.

Definition newline : string := String (Ascii.ascii_of_nat 10) "".

(** Four lines of input: the second is blank, the third fails. *)
Definition sample_lines : list string :=
  [ "2 + 3" +:+ newline; newline; "1/0" +:+ newline; "  -7 // 2" +:+ newline ].

(** * Properties *)

(** ** The walk visits every node *)

Lemma subnodes_unfold n : subnodes n = n :: (iter_child_nodes n ≫= subnodes).
Proof.
  destruct n as [b|e|o|o|c|a e]; simpl; rewrite ?app_nil_r; try done.
  destruct e; simpl; rewrite ?app_nil_r, ?bind_app, ?list_fmap_bind; done.
Qed.

Definition queue_size (todo : list node) : nat := sum_list_with node_size todo.

Lemma queue_size_exprs (l : list expr) :
  queue_size (NExpr <$> l) = sum_list_with expr_size l.
Proof. induction l as [|x l IH]; csimpl; [done|]. by rewrite <- IH. Qed.

Lemma queue_size_keywords (l : list (option string * expr)) :
  queue_size ((λ kw, NKeyword kw.1 kw.2) <$> l)
  = sum_list_with (λ kw, S (expr_size kw.2)) l.
Proof. induction l as [|x l IH]; csimpl; [done|]. by rewrite <- IH. Qed.

Lemma queue_size_app q1 q2 : queue_size (q1 ++ q2) = (queue_size q1 + queue_size q2)%nat.
Proof. apply sum_list_with_app. Qed.

Lemma node_size_unfold n : node_size n = S (queue_size (iter_child_nodes n)).
Proof.
  destruct n as [b|e|o|o|c|a e]; [done| |done..].
  destruct e; csimpl; fold (queue_size);
    rewrite ?queue_size_app, ?queue_size_exprs, ?queue_size_keywords;
    unfold queue_size; simpl; lia.
Qed.

(** With fuel for every node of the queued trees, the loop yields exactly
    their nodes, each once. *)
Lemma walk_queue_nodes fuel todo :
  (queue_size todo ≤ fuel)%nat → walk_queue fuel todo ≡ₚ todo ≫= subnodes.
Proof.
  revert todo. induction fuel as [|fuel IH]; intros todo Hfuel.
  - destruct todo as [|n todo]; [done|].
    unfold queue_size in Hfuel. simpl in Hfuel. rewrite node_size_unfold in Hfuel. lia.
  - destruct todo as [|n todo]; [done|]. simpl.
    rewrite IH.
    + rewrite bind_app, (subnodes_unfold n). simpl.
      f_equiv. apply Permutation_app_comm.
    + rewrite queue_size_app. unfold queue_size in Hfuel |- *. simpl in Hfuel.
      rewrite node_size_unfold in Hfuel. unfold queue_size in Hfuel. lia.
Qed.

Lemma ast_walk_nodes n : ast_walk n ≡ₚ subnodes n.
Proof.
  unfold ast_walk. rewrite walk_queue_nodes.
  - simpl. by rewrite app_nil_r.
  - unfold queue_size. simpl. lia.
Qed.

(** ** Evaluation reads the state and calls the tables' callables only *)

Section Containment.
Variable H : Host.

Lemma contained_ret {A} (a : A) : contained (ret a).
Proof. intros σ. by split. Qed.

Lemma contained_raise {A} e : contained (raise (A := A) e).
Proof. intros σ. by split. Qed.

Lemma contained_gets {A} (f : state → A) : contained (gets f).
Proof. intros σ. by split. Qed.

Lemma contained_bind {A B} (m : M A) (k : A → M B) :
  contained m → (∀ a, contained (k a)) → contained (bind m k).
Proof.
  intros Hm Hk σ. unfold bind. destruct (Hm σ) as [Hfinal Htrace].
  destruct (result (m σ)) as [a|e]; simpl; [|done].
  destruct (Hk a (final (m σ))) as [Hfinal' Htrace'].
  rewrite Hfinal in Hfinal', Htrace' |- *. split; [done|]. by apply Forall_app_2.
Qed.

Lemma contained_try_except {A} (m : M A) (handler : exception → M A) :
  contained m → (∀ e, contained (handler e)) → contained (try_except m handler).
Proof.
  intros Hm Hh σ. unfold try_except. destruct (Hm σ) as [Hfinal Htrace].
  destruct (result (m σ)) as [a|e]; simpl; [done|].
  destruct (Hh e (final (m σ))) as [Hfinal' Htrace'].
  rewrite Hfinal in Hfinal', Htrace' |- *. split; [done|]. by apply Forall_app_2.
Qed.

Lemma contained_getitem `{Countable K} {V} (d : gmap K V) (k : K) :
  contained (getitem d k).
Proof. unfold getitem. destruct (d !! k); [apply contained_ret|apply contained_raise]. Qed.

Lemma contained_for_each {A B} (f : A → M B) (l : list A) :
  Forall (λ a, contained (f a)) l → contained (for_each f l).
Proof.
  induction 1 as [|a l Ha _ IH]; simpl; [apply contained_ret|].
  apply contained_bind; [done|]. intros b.
  apply contained_bind; [done|]. intros bs. apply contained_ret.
Qed.

Lemma contained_parse src : contained (parse H src).
Proof. intros σ. split; [done|]. by apply Forall_singleton. Qed.

(** A callable taken from one of the tables and then called. *)
Lemma contained_table_call `{Countable K} (table : state → gmap K callable)
    (key : K) (args : list value) :
  (∀ σ f, table σ !! key = Some f → in_tables σ f) →
  contained (d <- gets table;; f <- getitem d key;; call H f args).
Proof.
  intros Htable σ. unfold bind, gets, getitem, call. simpl.
  destruct (table σ !! key) as [f|] eqn:Hf; simpl; [|done].
  split; [done|]. apply Forall_singleton. by apply (Htable σ f).
Qed.

Lemma eval_node_contained node : contained (_eval_node H node).
Proof.
  induction node as [l o r IHl IHr|o x IHx|f args kws _ IHargs _|v|x a c _|id c|elts c _|k]
    using expr_ind;
    simpl.
  - apply contained_bind; [done|]. intros a.
    apply contained_bind; [done|]. intros b.
    apply contained_bind; [apply contained_gets|]. intros binops.
    destruct (contains binops o); [|apply contained_raise].
    apply (contained_table_call g_BINOPS). intros σ g Hg. left. eauto.
  - apply contained_bind; [apply contained_gets|]. intros unaryops.
    destruct (contains unaryops o); [|apply contained_raise].
    apply contained_bind; [done|]. intros val.
    apply (contained_table_call g_UNARYOPS). intros σ g Hg. right. left. eauto.
  - destruct f; try apply contained_raise.
    apply contained_bind; [apply contained_gets|]. intros funcs.
    destruct (contains funcs id); simpl; [|apply contained_raise].
    apply contained_bind; [by apply contained_for_each|]. intros vs.
    apply (contained_table_call g_ALLOWED_FUNCS). intros σ g Hg. right. right. eauto.
  - destruct (isinstance_number v); [apply contained_ret|apply contained_raise].
  - apply contained_raise.
  - apply contained_bind; [apply contained_gets|]. intros names.
    destruct (contains names id); [apply contained_getitem|].
    apply contained_bind; [apply contained_gets|]. intros consts.
    destruct (contains consts id); [|apply contained_raise].
    apply contained_bind; [apply contained_gets|]. intros consts'.
    apply contained_getitem.
  - apply contained_raise.
  - apply contained_raise.
Qed.

Lemma check_nodes_contained nodes : contained (check_nodes H nodes).
Proof.
  induction nodes as [|n nodes IH]; simpl; [apply contained_ret|].
  destruct (isinstance_any n allowed_node_types); [done|apply contained_raise].
Qed.

Lemma evaluate_contained expr : contained (evaluate H expr).
Proof.
  destruct expr; try apply contained_raise. simpl.
  apply contained_bind.
  - apply contained_try_except; [apply contained_parse|].
    intros e. destruct (caught_by (exc_type e) "SyntaxError"); apply contained_raise.
  - intros body. apply contained_bind; [apply check_nodes_contained|].
    intros _. apply eval_node_contained.
Qed.

Lemma eval_node_final node σ : final (_eval_node H node σ) = σ.
Proof. apply eval_node_contained. Qed.

Lemma for_each_final (l : list expr) σ : final (for_each (_eval_node H) l σ) = σ.
Proof.
  apply contained_for_each, Forall_forall. intros x _. apply eval_node_contained.
Qed.

End Containment.

(** ** How [evaluate] and [_eval_node] unfold *)

Section Unfolding.
Variable H : Host.

Lemma evaluate_parsed src body σ :
  ast_parse H src = Return body →
  evaluate H (VStr src) σ =
  let o := (_ <- check_nodes H (ast_walk (NExpression body));; _eval_node H body) σ in
  Outcome (result o) (final o) (Parsed src :: trace o).
Proof.
  intros Hparse. unfold evaluate, try_except, parse.
  unfold bind at 1. simpl. by rewrite Hparse.
Qed.

Lemma evaluate_syntax_error src msg σ :
  ast_parse H src = Raise (Exc SyntaxError msg) →
  evaluate H (VStr src) σ =
  Outcome (Raise (Exc EvalError ("Syntax error: " +:+ msg))) σ [Parsed src].
Proof.
  intros Hparse. unfold evaluate, try_except, parse.
  unfold bind at 1. simpl. by rewrite Hparse.
Qed.

Lemma check_nodes_pass nodes σ :
  Forall (λ n, disallowed n = false) nodes →
  check_nodes H nodes σ = Outcome (Return tt) σ [].
Proof.
  induction 1 as [|n nodes Hn _ IH]; simpl; [done|].
  unfold disallowed in Hn. apply negb_false_iff in Hn. by rewrite Hn.
Qed.

Lemma check_nodes_fail nodes σ :
  Exists (λ n, disallowed n = true) nodes →
  ∃ n, n ∈ nodes ∧ disallowed n = true ∧
    check_nodes H nodes σ =
    Outcome (Raise (Exc EvalError
                      ("Disallowed expression element: " +:+ str_type H (type_of n))))
      σ [].
Proof.
  induction nodes as [|n nodes IH]; intros Hex; [by apply Exists_nil in Hex|].
  simpl. destruct (isinstance_any n allowed_node_types) eqn:Hn.
  - apply Exists_cons in Hex as [Hex|Hex].
    + unfold disallowed in Hex. by rewrite Hn in Hex.
    + destruct (IH Hex) as (n' & Hin & Hdis & Hrun).
      exists n'. split; [by right|done].
  - exists n. split; [by left|]. split; [|done]. unfold disallowed. by rewrite Hn.
Qed.

Lemma eval_BinOp l o r σ a b f :
  result (_eval_node H l σ) = Return a →
  result (_eval_node H r σ) = Return b →
  g_BINOPS σ !! o = Some f →
  _eval_node H (BinOp l o r) σ =
  Outcome (apply_callable H f [a; b]) σ
    (trace (_eval_node H l σ) ++ trace (_eval_node H r σ) ++ [Called f [a; b]]).
Proof.
  intros Hl Hr Hf. simpl. unfold bind, gets, getitem, call, contains.
  rewrite Hl. simpl. rewrite eval_node_final, Hr. simpl.
  rewrite eval_node_final, Hf. simpl. by rewrite Hf.
Qed.

Lemma eval_BinOp_left l o r σ e :
  result (_eval_node H l σ) = Raise e →
  _eval_node H (BinOp l o r) σ = Outcome (Raise e) σ (trace (_eval_node H l σ)).
Proof.
  intros Hl. simpl. unfold bind. rewrite Hl. simpl. by rewrite eval_node_final.
Qed.

Lemma eval_BinOp_right l o r σ a e :
  result (_eval_node H l σ) = Return a →
  result (_eval_node H r σ) = Raise e →
  _eval_node H (BinOp l o r) σ =
  Outcome (Raise e) σ (trace (_eval_node H l σ) ++ trace (_eval_node H r σ)).
Proof.
  intros Hl Hr. simpl. unfold bind. rewrite Hl. simpl.
  rewrite eval_node_final, Hr. simpl. by rewrite eval_node_final.
Qed.

Lemma eval_UnaryOp o x σ a f :
  result (_eval_node H x σ) = Return a →
  g_UNARYOPS σ !! o = Some f →
  _eval_node H (UnaryOp o x) σ =
  Outcome (apply_callable H f [a]) σ (trace (_eval_node H x σ) ++ [Called f [a]]).
Proof.
  intros Hx Hf. simpl. unfold bind, gets, getitem, call, contains. simpl.
  rewrite Hf. simpl. rewrite Hx. simpl. rewrite eval_node_final, Hf. done.
Qed.

Lemma eval_UnaryOp_raises o x σ e f :
  result (_eval_node H x σ) = Raise e →
  g_UNARYOPS σ !! o = Some f →
  _eval_node H (UnaryOp o x) σ = Outcome (Raise e) σ (trace (_eval_node H x σ)).
Proof.
  intros Hx Hf. simpl. unfold bind, gets, contains. simpl.
  rewrite Hf. simpl. rewrite Hx. simpl. by rewrite eval_node_final.
Qed.

Lemma eval_Call fname c args kws σ vs f :
  result (for_each (_eval_node H) args σ) = Return vs →
  g_ALLOWED_FUNCS σ !! fname = Some f →
  _eval_node H (Call (Name fname c) args kws) σ =
  Outcome (apply_callable H f vs) σ
    (trace (for_each (_eval_node H) args σ) ++ [Called f vs]).
Proof.
  intros Hargs Hf. simpl. unfold bind, gets, getitem, call, contains. simpl.
  rewrite Hf. simpl. rewrite Hargs. simpl. rewrite for_each_final, Hf. done.
Qed.

Lemma eval_Call_raises fname c args kws σ e f :
  result (for_each (_eval_node H) args σ) = Raise e →
  g_ALLOWED_FUNCS σ !! fname = Some f →
  _eval_node H (Call (Name fname c) args kws) σ =
  Outcome (Raise e) σ (trace (for_each (_eval_node H) args σ)).
Proof.
  intros Hargs Hf. simpl. unfold bind, gets, contains. simpl.
  rewrite Hf. simpl. rewrite Hargs. simpl. by rewrite for_each_final.
Qed.

Lemma eval_Call_not_allowed fname c args kws σ :
  g_ALLOWED_FUNCS σ !! fname = None →
  _eval_node H (Call (Name fname c) args kws) σ =
  Outcome (Raise (Exc EvalError ("Function not allowed: " +:+ fname))) σ [].
Proof.
  intros Hnone. simpl. unfold bind, gets, contains. simpl. by rewrite Hnone.
Qed.

End Unfolding.


(** ** Arithmetic on integers *)

(** C2: [evaluate("2 + 3")] is 5, [evaluate("2 ** 3 ** 2")] is 512,
    [evaluate("-7 // 2")] is -4 and [evaluate("-7 % 2")] is 1, given the
    trees the parser builds for these four texts ([**] nests to the right,
    the unary minus binds tighter than [//] and [%]).  For all integer
    operands with a non-zero divisor, [//] and [%] give the quotient [q] and
    remainder [m] of floored division: [a = b * q + m] with [m] between zero
    and the divisor, zero included, the divisor not. *)
Theorem arithmetic_examples (H : Host) (vars : gmap string value) :
  ast_parse H "2 + 3" = Return (BinOp (int_lit 2) Add (int_lit 3)) →
  ast_parse H "2 ** 3 ** 2"
    = Return (BinOp (int_lit 2) Pow (BinOp (int_lit 3) Pow (int_lit 2))) →
  ast_parse H "-7 // 2"
    = Return (BinOp (UnaryOp USub (int_lit 7)) FloorDiv (int_lit 2)) →
  ast_parse H "-7 % 2"
    = Return (BinOp (UnaryOp USub (int_lit 7)) Mod (int_lit 2)) →
  result (evaluate H (VStr "2 + 3") (at_import vars)) = Return (VInt 5)
  ∧ result (evaluate H (VStr "2 ** 3 ** 2") (at_import vars)) = Return (VInt 512)
  ∧ result (evaluate H (VStr "-7 // 2") (at_import vars)) = Return (VInt (-4))
  ∧ result (evaluate H (VStr "-7 % 2") (at_import vars)) = Return (VInt 1)
  ∧ ∀ (l r : expr) (a b : Z),
      result (_eval_node H l (at_import vars)) = Return (VInt a) →
      result (_eval_node H r (at_import vars)) = Return (VInt b) →
      b ≠ 0 →
      ∃ q m : Z,
        result (_eval_node H (BinOp l FloorDiv r) (at_import vars)) = Return (VInt q)
        ∧ result (_eval_node H (BinOp l Mod r) (at_import vars)) = Return (VInt m)
        ∧ a = b * q + m
        ∧ (0 ≤ m < b ∨ b < m ≤ 0).
Proof.
  intros Hadd Hpow Hfloordiv Hmod.
  rewrite (evaluate_parsed _ _ _ _ Hadd), (evaluate_parsed _ _ _ _ Hpow),
    (evaluate_parsed _ _ _ _ Hfloordiv), (evaluate_parsed _ _ _ _ Hmod).
  split; [by vm_compute|]. split; [by vm_compute|].
  split; [by vm_compute|]. split; [by vm_compute|].
  intros l r a b Hl Hr Hb. exists (a `div` b), (a `mod` b).
  rewrite (eval_BinOp H l FloorDiv r _ _ _ op_floordiv Hl Hr eq_refl).
  rewrite (eval_BinOp H l Mod r _ _ _ op_mod Hl Hr eq_refl).
  simpl. rewrite !bool_decide_eq_false_2 by done.
  repeat split.
  - apply Z.div_mod; done.
  - destruct (Z.lt_trichotomy b 0) as [Hneg|[?|Hpos]]; [right|done|left].
    + pose proof (Z.mod_neg_bound a b Hneg). lia.
    + pose proof (Z.mod_pos_bound a b Hpos). lia.
Qed.

Lemma arithmetic_examples_witness :
  result (run "2 ** 3 ** 2" ∅) = Return (VInt 512)
  ∧ result (run "-7 // 2" ∅) = Return (VInt (-4))
  ∧ result (run "-7 % 2" ∅) = Return (VInt 1).
Proof.
  destruct (arithmetic_examples cpython ∅ eq_refl eq_refl eq_refl eq_refl)
    as (_ & Hpow & Hfloordiv & Hmod & _).
  exact (conj Hpow (conj Hfloordiv Hmod)).
Defined.


(** ** Division by zero *)

Lemma zero_divisor H f a b :
  f = op_truediv ∨ f = op_mod →
  is_Some (real_is_zero a) →
  real_is_zero b = Some true →
  apply_binary H f a b
  = Raise (Exc (if too_large_for_float a && bool_decide (as_int b = None)
                then OverflowError else ZeroDivisionError)
             (host_msg H f [a; b])).
Proof.
  intros Hf [za Ha] Hb.
  destruct a as [n|p|x|? ?|?|?| |]; try discriminate Ha;
    destruct b as [m|q|y|? ?|?|?| |]; try discriminate Hb;
    try (destruct q; try discriminate Hb);
    try (injection Hb as Hb; try apply bool_decide_eq_true_1 in Hb; subst);
    destruct Hf as [-> | ->]; simpl; rewrite ?Hb, ?andb_false_r, ?andb_true_r;
    reflexivity.
Qed.

(** C3, as the claim states it, fails: [evaluate("1/0")] raises the
    interpreter's [ZeroDivisionError], which is no [EvalError] and which an
    [except EvalError] clause does not catch. *)
Lemma division_by_zero_counterexample :
  result (run "1/0" ∅) = Raise (Exc ZeroDivisionError "division by zero")
  ∧ result (run "1/0" ∅) ≠ Raise (Exc EvalError "division by zero")
  ∧ caught_by ZeroDivisionError "EvalError" = false.
Proof.
  split; [by vm_compute|]. split; [|by vm_compute].
  vm_compute. intros [=].
Qed.

(** C3, amended: for real operands (int, bool, float) with a zero right
    operand, [/] and [%] raise the interpreter's [ZeroDivisionError], which
    [evaluate] lets through as it is.  There is one exception: an integer left
    operand too large for a float, over a float zero, raises the
    interpreter's [OverflowError] instead, because the integer is converted
    first.  In neither case is a value (an infinity, a NaN) returned, and
    neither exception is an [EvalError].  [evaluate("1/0")] is a case of the
    first kind. *)
Theorem division_by_zero_raises (H : Host) (vars : gmap string value)
    (l r : expr) (o : operator) (a b : value) :
  o = Div ∨ o = Mod →
  result (_eval_node H l (at_import vars)) = Return a →
  result (_eval_node H r (at_import vars)) = Return b →
  is_Some (real_is_zero a) →
  real_is_zero b = Some true →
  (too_large_for_float a = false ∨ is_Some (as_int b) →
   ∃ msg, result (_eval_node H (BinOp l o r) (at_import vars))
          = Raise (Exc ZeroDivisionError msg))
  ∧ (too_large_for_float a = true → as_int b = None →
     ∃ msg, result (_eval_node H (BinOp l o r) (at_import vars))
            = Raise (Exc OverflowError msg))
  ∧ caught_by ZeroDivisionError "EvalError" = false
  ∧ caught_by OverflowError "EvalError" = false
  ∧ (ast_parse H "1/0" = Return (BinOp (int_lit 1) Div (int_lit 0)) →
     ∃ msg, result (evaluate H (VStr "1/0") (at_import vars))
            = Raise (Exc ZeroDivisionError msg)).
Proof.
  intros Ho Hl Hr Ha Hb.
  assert (∃ f, g_BINOPS (at_import vars) !! o = Some f ∧ (f = op_truediv ∨ f = op_mod))
    as (f & Hf & Hdiv).
  { destruct Ho as [-> | ->]; eexists; (split; [reflexivity|]); auto. }
  assert (result (_eval_node H (BinOp l o r) (at_import vars))
          = Raise (Exc (if too_large_for_float a && bool_decide (as_int b = None)
                        then OverflowError else ZeroDivisionError)
                     (host_msg H f [a; b]))) as Hrun.
  { rewrite (eval_BinOp H l o r _ _ _ f Hl Hr Hf). cbn [result].
    assert (apply_callable H f [a; b] = apply_binary H f a b) as ->
      by (by destruct Hdiv as [-> | ->]).
    by apply zero_divisor. }
  split; [|split; [|split; [done|split; [done|]]]].
  - intros Hfits. rewrite Hrun. eexists.
    destruct Hfits as [-> | [n Hn]]; [done|].
    by rewrite Hn, bool_decide_eq_false_2, andb_false_r by done.
  - intros Hlarge Hfloat. rewrite Hrun, Hlarge, Hfloat. by eexists.
  - intros Hparse. rewrite (evaluate_parsed _ _ _ _ Hparse).
    eexists. vm_compute. reflexivity.
Qed.

Lemma division_by_zero_raises_witness :
  result (_eval_node cpython (BinOp (Constant (VFloat 1.5)) Mod (name "z"))
            (at_import {["z" := VBool false]}))
  = Raise (Exc ZeroDivisionError "float modulo")
  ∧ result (_eval_node cpython (BinOp (name "x") Div (Constant (VFloat 0)))
              (at_import {["x" := VInt (2 ^ 1024)]}))
    = Raise (Exc OverflowError "int too large to convert to float")
  ∧ result (evaluate cpython (VStr "1/0") (at_import {["z" := VBool false]}))
    = Raise (Exc ZeroDivisionError "division by zero").
Proof.
  destruct (division_by_zero_raises cpython {["z" := VBool false]}
              (Constant (VFloat 1.5)) (name "z") Mod (VFloat 1.5) (VBool false))
    as (Hmod & _ & _ & _ & Hdiv);
    [by right|by vm_compute|by vm_compute|by eexists|by vm_compute|].
  destruct (division_by_zero_raises cpython {["x" := VInt (2 ^ 1024)]}
              (name "x") (Constant (VFloat 0)) Div (VInt (2 ^ 1024)) (VFloat 0))
    as (_ & Hlarge & _);
    [by left|by vm_compute|by vm_compute|by eexists|by vm_compute|].
  destruct (Hmod (or_introl eq_refl)) as [msg1 Hmsg1].
  destruct (Hlarge eq_refl eq_refl) as [msg2 Hmsg2].
  destruct (Hdiv eq_refl) as [msg3 Hmsg3].
  rewrite Hmsg1, Hmsg2, Hmsg3.
  vm_compute in Hmsg1, Hmsg2, Hmsg3.
  injection Hmsg1 as <-. injection Hmsg2 as <-. by injection Hmsg3 as <-.
Defined.

(** ** Names *)

(** C6, as the claim states it, fails on the text of the error: the message
    starts with a capital letter. *)
Lemma unknown_identifier_counterexample :
  result (_eval_node cpython (name "x") (at_import ∅))
    = Raise (Exc EvalError "Unknown identifier: x")
  ∧ result (_eval_node cpython (name "x") (at_import ∅))
    ≠ Raise (Exc EvalError "unknown identifier: x").
Proof. split; [by vm_compute|]. vm_compute. intros [=]. Qed.

(** C6, amended: a name is looked up in the caller's variables first; only
    if it is no key there is the constant table consulted (so a variable
    named "pi" shadows the constant); a name in neither raises
    [EvalError("Unknown identifier: <name>")].  Nothing is called and the
    state stays as it was. *)
Theorem name_resolution (H : Host) (σ : state) (id : string) (c : expr_context) :
  (∀ v, variables σ !! id = Some v →
        _eval_node H (Name id c) σ = Outcome (Return v) σ [])
  ∧ (∀ v, variables σ !! id = None → g_ALLOWED_CONSTS σ !! id = Some v →
          _eval_node H (Name id c) σ = Outcome (Return v) σ [])
  ∧ (variables σ !! id = None → g_ALLOWED_CONSTS σ !! id = None →
     _eval_node H (Name id c) σ
     = Outcome (Raise (Exc EvalError ("Unknown identifier: " +:+ id))) σ []).
Proof.
  repeat split.
  - intros v Hv. simpl. unfold bind, gets, getitem, contains. simpl. by rewrite Hv.
  - intros v Hv Hc. simpl. unfold bind, gets, getitem, contains. simpl.
    rewrite Hv. simpl. rewrite Hc. simpl. by rewrite Hc.
  - intros Hv Hc. simpl. unfold bind, gets, getitem, contains. simpl.
    rewrite Hv. simpl. by rewrite Hc.
Qed.

Lemma name_resolution_witness :
  result (_eval_node cpython (name "pi") (at_import {["pi" := VInt 3]}))
    = Return (VInt 3)
  ∧ result (_eval_node cpython (name "pi") (at_import ∅))
    = Return (VFloat 0x1.921fb54442d18p+1)
  ∧ result (_eval_node cpython (name "x") (at_import ∅))
    = Raise (Exc EvalError "Unknown identifier: x").
Proof.
  destruct (name_resolution cpython (at_import {["pi" := VInt 3]}) "pi" Load)
    as (Hvar & _ & _).
  destruct (name_resolution cpython (at_import ∅) "pi" Load) as (_ & Hconst & _).
  destruct (name_resolution cpython (at_import ∅) "x" Load) as (_ & _ & Hnone).
  unfold name. rewrite (Hvar (VInt 3)) by (by vm_compute).
  rewrite (Hconst (VFloat 0x1.921fb54442d18p+1)) by (by vm_compute).
  rewrite Hnone by (by vm_compute).
  done.
Defined.

(** ** Malformed text *)




(** ** An expression that is no string *)

(** C9: for every argument that is no string, [evaluate] raises
    [TypeError("expr must be a string")] before anything is parsed, checked
    or evaluated: the trace is empty and the state untouched.  A [TypeError]
    is no [EvalError], nor a [ValueError]. *)
Theorem non_string_is_TypeError (H : Host) (expr : value) (σ : state) :
  (∀ s, expr ≠ VStr s) →
  evaluate H expr σ = Outcome (Raise (Exc TypeError "expr must be a string")) σ []
  ∧ caught_by TypeError "EvalError" = false
  ∧ caught_by TypeError "ValueError" = false.
Proof.
  intros Hexpr. split; [|done].
  destruct expr as [n|b|x|re im|s|s| |]; try reflexivity. by destruct (Hexpr s).
Qed.

Lemma non_string_is_TypeError_witness :
  evaluate cpython (VInt 42) (at_import ∅)
  = Outcome (Raise (Exc TypeError "expr must be a string")) (at_import ∅) [].
Proof.
  apply (non_string_is_TypeError cpython (VInt 42) (at_import ∅)).
  intros s. discriminate.
Defined.

(** ** Arguments outside a function's domain *)

Lemma sqrt_of_negative (x : float) :
  (x <? 0)%float = true → is_nan (PrimFloat.sqrt x) = true ∧ is_nan x = false.
Proof.
  intros Hneg. unfold is_nan. rewrite !FloatAxioms.eqb_spec, FloatAxioms.sqrt_spec.
  rewrite FloatAxioms.ltb_spec in Hneg. unfold SF64sqrt.
  destruct (Prim2SF x) as [s|s| |s m e]; try discriminate Hneg;
    destruct s; try discriminate Hneg; simpl; split; try reflexivity.
  unfold SFeqb, SFcompare. rewrite Z.compare_refl.
  by rewrite Pos.compare_cont_refl.
Qed.

Lemma sqrt_domain_error H (a : value) (x : float) :
  as_float a = Some x → (x <? 0)%float = true →
  apply_callable H (math_attr "sqrt") [a]
  = Raise (Exc ValueError (host_msg H (math_attr "sqrt") [a])).
Proof.
  intros Ha Hneg. destruct (sqrt_of_negative x Hneg) as [Hr Hx].
  simpl. unfold apply_math. rewrite Ha. simpl. unfold math_1. by rewrite Hr, Hx.
Qed.

Lemma pow_of_non_integer H (a b : value) :
  as_int a = None ∨ as_int b = None →
  apply_callable H op_pow [a; b] = host_apply H op_pow [a; b].
Proof.
  intros Hab. simpl. unfold apply_binary.
  destruct (as_int a) as [x|] eqn:Ha, (as_int b) as [y|] eqn:Hb;
    [by destruct Hab| | |];
    by destruct (real_is_zero a) as [?|], (real_is_zero b) as [[]|].
Qed.




(** ** Calls *)

(** C5, as the claim states it, fails on the class and the text of the
    error: the module declares no [ValidationError], and the message starts
    with a capital letter. *)
Lemma function_not_allowed_counterexample :
  result (_eval_node cpython (call_name "open" [str_lit "f"]) (at_import ∅))
    = Raise (Exc EvalError "Function not allowed: open")
  ∧ class_name EvalError ≠ "ValidationError"
  ∧ caught_by EvalError "ValidationError" = false
  ∧ "Function not allowed: open" ≠ "function not allowed: open".
Proof.
  split; [by vm_compute|]. split; [vm_compute; intros [=]|].
  split; [by vm_compute|]. intros [=].
Qed.

(** C5, amended: a call whose target is anything but a plain name raises
    [EvalError("Only direct function calls are allowed")], and a call of a
    name that is no key of the function table raises
    [EvalError("Function not allowed: <name>")]; both are raised before any
    argument is evaluated and before anything is applied.  Every function
    the evaluation of a tree applies is one the function table holds under a
    whitelisted name, applied to evaluated arguments; no other callable is
    ever applied. *)
Theorem call_targets (H : Host) (σ : state) (func : expr) (args : list expr)
    (kws : list (option string * expr)) :
  ((∀ id c, func ≠ Name id c) →
   _eval_node H (Call func args kws) σ
   = Outcome (Raise (Exc EvalError "Only direct function calls are allowed")) σ [])
  ∧ (∀ fname c, func = Name fname c → g_ALLOWED_FUNCS σ !! fname = None →
       _eval_node H (Call func args kws) σ
       = Outcome (Raise (Exc EvalError ("Function not allowed: " +:+ fname))) σ [])
  ∧ (∀ fname c f vs, func = Name fname c → g_ALLOWED_FUNCS σ !! fname = Some f →
       result (for_each (_eval_node H) args σ) = Return vs →
       _eval_node H (Call func args kws) σ
       = Outcome (apply_callable H f vs) σ
           (trace (for_each (_eval_node H) args σ) ++ [Called f vs]))
  ∧ (∀ f vs, Called f vs ∈ trace (_eval_node H (Call func args kws) σ) →
       in_tables σ f).
Proof.
  split; [|split; [|split]].
  - intros Hfunc. destruct func; try reflexivity. by destruct (Hfunc id ctx).
  - intros fname c -> Hnone. by apply eval_Call_not_allowed.
  - intros fname c f vs -> Hf Hargs. by apply eval_Call.
  - intros f vs Hin.
    destruct (eval_node_contained H (Call func args kws) σ) as [_ Htrace].
    rewrite Forall_forall in Htrace. exact (Htrace _ Hin).
Qed.

Lemma call_targets_witness :
  _eval_node cpython (Call (call_name "sin" []) [int_lit 2] []) (at_import ∅)
  = Outcome (Raise (Exc EvalError "Only direct function calls are allowed"))
      (at_import ∅) []
  ∧ _eval_node cpython (call_name "open" [str_lit "f"]) (at_import ∅)
    = Outcome (Raise (Exc EvalError "Function not allowed: open")) (at_import ∅) [].
Proof.
  split.
  - apply (call_targets cpython (at_import ∅) (call_name "sin" []) [int_lit 2] []).
    intros id c. discriminate.
  - apply (proj1 (proj2 (call_targets cpython (at_import ∅) (name "open")
                           [str_lit "f"] [])) "open" Load); by vm_compute.
Defined.

(** ** No state between calls *)

(** C8: [evaluate] is deterministic and idempotent.  Whatever the
    expression and the variables, a call leaves the module's tables and the
    variable mapping exactly as it found them, so a second call with the same
    expression starts from the same state and gives the same result, after
    the same calls.  (The interpreter's parser and functions are functions of
    their arguments here, as they are in Python.) *)
Theorem evaluate_is_idempotent (H : Host) (expr : value) (σ : state) :
  final (evaluate H expr σ) = σ
  ∧ variables (final (evaluate H expr σ)) = variables σ
  ∧ evaluate H expr (final (evaluate H expr σ)) = evaluate H expr σ.
Proof.
  destruct (evaluate_contained H expr σ) as [Hfinal _].
  by rewrite !Hfinal.
Qed.

(** ** Literals *)

Lemma bind_run {A B} (m : M A) (k : A → M B) σ :
  bind m k σ =
  match result (m σ) with
  | Return a =>
      Outcome (result (k a (final (m σ)))) (final (k a (final (m σ))))
        (trace (m σ) ++ trace (k a (final (m σ))))
  | Raise e => Outcome (Raise e) (final (m σ)) (trace (m σ))
  end.
Proof. reflexivity. Qed.

Lemma for_each_cons H (a : expr) (l : list expr) σ :
  for_each (_eval_node H) (a :: l) σ =
  match result (_eval_node H a σ) with
  | Return b =>
      match result (for_each (_eval_node H) l σ) with
      | Return bs =>
          Outcome (Return (b :: bs)) σ
            (trace (_eval_node H a σ) ++ trace (for_each (_eval_node H) l σ))
      | Raise e =>
          Outcome (Raise e) σ
            (trace (_eval_node H a σ) ++ trace (for_each (_eval_node H) l σ))
      end
  | Raise e => Outcome (Raise e) σ (trace (_eval_node H a σ))
  end.
Proof.
  simpl. rewrite bind_run, eval_node_final.
  destruct (result (_eval_node H a σ)) as [b|e]; [|done].
  rewrite bind_run, for_each_final.
  destruct (result (for_each (_eval_node H) l σ)) as [bs|e]; [|done].
  simpl. by rewrite app_nil_r.
Qed.

(** The comprehension over the arguments stops at a literal that is no
    number: it raises, after the calls of the arguments before it. *)
Lemma for_each_stops H σ (pre post : list expr) (v : value) :
  isinstance_number v = false →
  raises (result (for_each (_eval_node H) (pre ++ Constant v :: post) σ))
  ∧ trace (for_each (_eval_node H) (pre ++ Constant v :: post) σ)
    = trace (for_each (_eval_node H) pre σ).
Proof.
  intros Hv. induction pre as [|a pre [IHr IHt]].
  - rewrite app_nil_l, for_each_cons. simpl. rewrite Hv. simpl. split; [by eexists|done].
  - rewrite <- app_comm_cons, !for_each_cons.
    destruct (result (_eval_node H a σ)) as [b|e]; [|split; [by eexists|done]].
    destruct IHr as [e He]. rewrite He, IHt.
    destruct (result (for_each (_eval_node H) pre σ)); (split; [by eexists|done]).
Qed.

(** C10: a literal evaluates to its value exactly when the value is an
    [int] (a [bool] is one), a [float] or a [complex]; a complex literal
    such as [2j] is accepted.  A literal with any other value, a string for
    one, raises [EvalError("Unsupported constant: <repr of the value>")] when
    it is evaluated, so the operator or function it is an operand or
    argument of is not applied to it: the evaluation of that node raises
    after the calls of the operands before the literal and no other. *)
Theorem literal_values (H : Host) (σ : state) (v : value) :
  (isinstance_number v = true →
   _eval_node H (Constant v) σ = Outcome (Return v) σ [])
  ∧ (isinstance_number v = false →
     _eval_node H (Constant v) σ
     = Outcome (Raise (Exc EvalError ("Unsupported constant: " +:+ repr H v))) σ []
     ∧ (∀ o, raises (result (_eval_node H (UnaryOp o (Constant v)) σ))
             ∧ trace (_eval_node H (UnaryOp o (Constant v)) σ) = [])
     ∧ (∀ o r, raises (result (_eval_node H (BinOp (Constant v) o r) σ))
               ∧ trace (_eval_node H (BinOp (Constant v) o r) σ) = [])
     ∧ (∀ l o, raises (result (_eval_node H (BinOp l o (Constant v)) σ))
               ∧ trace (_eval_node H (BinOp l o (Constant v)) σ)
                 = trace (_eval_node H l σ))
     ∧ (∀ func pre post kws,
          raises (result (_eval_node H (Call func (pre ++ Constant v :: post) kws) σ))
          ∧ (trace (_eval_node H (Call func (pre ++ Constant v :: post) kws) σ) = []
             ∨ trace (_eval_node H (Call func (pre ++ Constant v :: post) kws) σ)
               = trace (for_each (_eval_node H) pre σ)))).
Proof.
  split; [intros Hv; simpl; by rewrite Hv|].
  intros Hv.
  assert (_eval_node H (Constant v) σ
          = Outcome (Raise (Exc EvalError ("Unsupported constant: " +:+ repr H v))) σ [])
    as Hlit by (simpl; by rewrite Hv).
  split; [done|]. split; [|split; [|split]].
  - intros o. destruct (g_UNARYOPS σ !! o) as [f|] eqn:Hf.
    + rewrite (eval_UnaryOp_raises H o _ σ _ f (f_equal result Hlit) Hf).
      rewrite Hlit. split; [by eexists|done].
    + simpl. unfold bind, gets, contains. simpl. rewrite Hf. simpl.
      split; [by eexists|done].
  - intros o r. rewrite (eval_BinOp_left H _ o r σ _ (f_equal result Hlit)).
    rewrite Hlit. split; [by eexists|done].
  - intros l o. destruct (result (_eval_node H l σ)) as [a|e] eqn:Hl.
    + rewrite (eval_BinOp_right H l o _ σ a _ Hl (f_equal result Hlit)).
      rewrite Hlit. simpl. rewrite app_nil_r. split; [by eexists|done].
    + rewrite (eval_BinOp_left H l o _ σ e Hl). split; [by eexists|done].
  - intros func pre post kws.
    destruct func as [| | | | |fname c| |]; try (split; [by eexists|by left]).
    destruct (for_each_stops H σ pre post v Hv) as [[e He] Ht].
    destruct (g_ALLOWED_FUNCS σ !! fname) as [f|] eqn:Hf.
    + rewrite (eval_Call_raises H fname c _ kws σ e f He Hf).
      split; [by eexists|by right].
    + simpl. unfold bind, gets, contains. simpl. rewrite Hf. simpl.
      split; [by eexists|by left].
Qed.

Lemma literal_values_witness :
  _eval_node cpython (Constant (VComplex 0 2)) (at_import ∅)
  = Outcome (Return (VComplex 0 2)) (at_import ∅) []
  ∧ _eval_node cpython (str_lit "ls") (at_import ∅)
    = Outcome (Raise (Exc EvalError "Unsupported constant: 'ls'")) (at_import ∅) [].
Proof.
  split.
  - by apply (proj1 (literal_values cpython (at_import ∅) (VComplex 0 2))).
  - by apply (proj2 (literal_values cpython (at_import ∅) (VStr "ls"))).
Defined.

(** ** Nothing outside the whitelist *)

Lemma in_tables_at_import vars f :
  in_tables (at_import vars) f → f ∈ whitelist.
Proof.
  intros [[o Ho]|[[o Ho]|[fname Hf]]].
  - destruct o; vm_compute in Ho; simplify_eq;
      apply (bool_decide_unpack _); by vm_compute.
  - destruct o; vm_compute in Ho; simplify_eq;
      apply (bool_decide_unpack _); by vm_compute.
  - apply elem_of_list_to_map_2, list_elem_of_fmap in Hf as (n & [= -> ->] & Hn).
    unfold whitelist. apply elem_of_app. right. by apply list_elem_of_fmap_2.
Qed.

Lemma whitelist_names f :
  f ∈ whitelist →
  (∀ name, f ≠ builtin name)
  ∧ (∀ name, f = math_attr name → name ∈ allowed_func_names).
Proof.
  unfold whitelist. intros [Hop|Hmath]%elem_of_app.
  - split; intros name ->; apply (bool_decide_pack _) in Hop; by vm_compute in Hop.
  - apply list_elem_of_fmap in Hmath as (n & -> & Hn).
    split; [done|]. by intros name [= ->].
Qed.

(** The frame and whitelist property [contained] is not one every
    computation has: a write, or a call of a built-in, breaks it. *)
Lemma write_is_not_contained : ¬ contained (setitem_variable "x" (VInt 1)).
Proof.
  intros Hcontained. destruct (Hcontained (at_import ∅)) as [Hfinal _].
  apply (f_equal (λ σ, variables σ !! "x")) in Hfinal. by vm_compute in Hfinal.
Qed.

Lemma builtin_call_is_not_contained H :
  ¬ contained (call H (builtin "open") [VStr "f"]).
Proof.
  intros Hcontained. destruct (Hcontained (at_import ∅)) as [_ Htrace].
  apply Forall_singleton, in_tables_at_import, whitelist_names in Htrace.
  by destruct (proj1 Htrace "open").
Qed.

Lemma allowed_operator o :
  disallowed (NOperator o) = false → is_Some (_BINOPS !! o).
Proof. destruct o; vm_compute; by eauto. Qed.

Lemma allowed_unaryop o :
  disallowed (NUnaryop o) = false → is_Some (_UNARYOPS !! o).
Proof. destruct o; vm_compute; by eauto. Qed.

Section Rejection.
Variable H : Host.
Variable vars : gmap string value.

Lemma for_each_raises (args : list expr) :
  Forall (λ a, Forall (λ n, disallowed n = false) (expr_nodes a) →
               Exists (λ x, refused_call x = true) (subexprs a) →
               raises (result (_eval_node H a (at_import vars)))) args →
  Forall (λ n, disallowed n = false) (args ≫= expr_nodes) →
  Exists (λ x, refused_call x = true) (args ≫= subexprs) →
  raises (result (for_each (_eval_node H) args (at_import vars))).
Proof.
  induction 1 as [|a args Ha _ IH]; intros Hall Hex.
  - by apply Exists_nil in Hex.
  - rewrite bind_cons in Hall. rewrite bind_cons in Hex.
    apply Forall_app in Hall as [Hall_a Hall]. rewrite for_each_cons.
    destruct (result (_eval_node H a (at_import vars))) as [b|e] eqn:Hb;
      [|by eexists].
    apply Exists_app in Hex as [Hex|Hex].
    + by destruct (Ha Hall_a Hex) as [e He].
    + destruct (IH Hall Hex) as [e He]. rewrite He. by eexists.
Qed.

(** In a tree the walk lets pass, a call that [_eval_node] refuses makes the
    evaluation raise: every subexpression is evaluated unless an earlier one
    has raised. *)
Lemma refused_call_raises (e : expr) :
  Forall (λ n, disallowed n = false) (expr_nodes e) →
  Exists (λ x, refused_call x = true) (subexprs e) →
  raises (result (_eval_node H e (at_import vars))).
Proof.
  induction e as [l o r IHl IHr|o x IHx|f args kws _ IHargs _|v|x a c _|id c|elts c _|k]
    using expr_ind; intros Hall Hex; simpl in Hall, Hex.
  - apply Forall_cons in Hall as [_ Hall].
    apply Forall_app in Hall as [Hl Hall].
    apply Forall_cons in Hall as [Ho Hr].
    apply Exists_cons in Hex as [Hex|Hex]; [done|].
    destruct (result (_eval_node H l (at_import vars))) as [a|e] eqn:Ha.
    + apply Exists_app in Hex as [Hex|Hex].
      * by destruct (IHl Hl Hex) as [e He].
      * destruct (IHr Hr Hex) as [e He].
        rewrite (eval_BinOp_right H l o r _ a e Ha He). by eexists.
    + rewrite (eval_BinOp_left H l o r _ e Ha). by eexists.
  - apply Forall_cons in Hall as [_ Hall].
    apply Forall_cons in Hall as [Ho Hx].
    apply Exists_cons in Hex as [Hex|Hex]; [done|].
    destruct (allowed_unaryop o Ho) as [f Hf].
    destruct (IHx Hx Hex) as [e He].
    rewrite (eval_UnaryOp_raises H o x _ e f He Hf). by eexists.
  - apply Forall_cons in Hall as [_ Hall].
    apply Forall_app in Hall as [Hf Hall].
    apply Forall_app in Hall as [Hargs Hkws].
    destruct f as [| | | | |fname c| |]; try by eexists.
    destruct (_ALLOWED_FUNCS !! fname) as [g|] eqn:Hfname.
    + apply Exists_cons in Hex as [Hex|Hex].
      { unfold refused_call, contains in Hex. by rewrite Hfname in Hex. }
      cbn [subexprs app] in Hex. apply Exists_cons in Hex as [Hex|Hex]; [done|].
      destruct kws as [|kw kws].
      * rewrite app_nil_r in Hex.
        destruct (for_each_raises args IHargs Hargs Hex) as [e He].
        rewrite (eval_Call_raises H fname c args [] (at_import vars) e g He Hfname).
        by eexists.
      * rewrite bind_cons in Hkws. apply Forall_app in Hkws as [Hkw _].
        by apply Forall_cons in Hkw as [Hkw _].
    + rewrite (eval_Call_not_allowed H fname c args kws (at_import vars) Hfname).
      by eexists.
  - apply Exists_cons in Hex as [Hex|Hex]; [done|]. by apply Exists_nil in Hex.
  - by apply Forall_cons in Hall as [Hall _].
  - apply Exists_cons in Hex as [Hex|Hex]; [done|]. by apply Exists_nil in Hex.
  - by eexists.
  - by eexists.
Qed.

End Rejection.

Section Walk.
Variable H : Host.

Lemma walk_passes body σ :
  Forall (λ n, disallowed n = false) (subnodes (NExpression body)) →
  check_nodes H (ast_walk (NExpression body)) σ = Outcome (Return tt) σ [].
Proof. intros Hall. apply check_nodes_pass. by rewrite ast_walk_nodes. Qed.

Lemma walk_rejects body σ :
  Exists (λ n, disallowed n = true) (subnodes (NExpression body)) →
  ∃ n, n ∈ subnodes (NExpression body) ∧ disallowed n = true ∧
    check_nodes H (ast_walk (NExpression body)) σ =
    Outcome (Raise (Exc EvalError
                      ("Disallowed expression element: " +:+ str_type H (type_of n))))
      σ [].
Proof.
  intros Hex. rewrite <- ast_walk_nodes in Hex.
  destruct (check_nodes_fail H _ σ Hex) as (n & Hin & Hdis & Hrun).
  exists n. by rewrite <- ast_walk_nodes.
Qed.

Lemma walk_decision body :
  Exists (λ n, disallowed n = true) (subnodes (NExpression body))
  ∨ Forall (λ n, disallowed n = false) (subnodes (NExpression body)).
Proof.
  destruct (decide (Exists (λ n, disallowed n = true) (subnodes (NExpression body))))
    as [Hex|Hall]; [by left|right].
  apply not_Exists_Forall in Hall; [|apply _].
  eapply Forall_impl; [exact Hall|]. intros n Hn. by apply not_true_is_false.
Qed.

Lemma evaluate_rejected src body σ n :
  ast_parse H src = Return body →
  check_nodes H (ast_walk (NExpression body)) σ =
    Outcome (Raise (Exc EvalError
                      ("Disallowed expression element: " +:+ str_type H (type_of n))))
      σ [] →
  evaluate H (VStr src) σ =
  Outcome (Raise (Exc EvalError
                    ("Disallowed expression element: " +:+ str_type H (type_of n))))
    σ [Parsed src].
Proof.
  intros Hparse Hcheck. rewrite (evaluate_parsed H src body σ Hparse).
  rewrite bind_run, Hcheck. done.
Qed.

Lemma evaluate_checked src body σ :
  ast_parse H src = Return body →
  Forall (λ n, disallowed n = false) (subnodes (NExpression body)) →
  evaluate H (VStr src) σ =
  Outcome (result (_eval_node H body σ)) σ (Parsed src :: trace (_eval_node H body σ)).
Proof.
  intros Hparse Hall. rewrite (evaluate_parsed H src body σ Hparse).
  rewrite bind_run, (walk_passes body σ Hall). simpl. by rewrite eval_node_final.
Qed.

End Walk.

(** C1, as the claim states it, fails: in ["1/0 + open('f')"] the call of
    [open] is refused only when the evaluation reaches it, and the division
    before it has been carried out by then; the error is the
    [ZeroDivisionError] of the evaluation, not one of parsing or validation.
    [open] itself is never applied. *)
Lemma whitelist_counterexample :
  ast_parse cpython "1/0 + open('f')"
    = Return (BinOp (BinOp (int_lit 1) Div (int_lit 0)) Add
                (call_name "open" [str_lit "f"]))
  ∧ reaches_outside (BinOp (BinOp (int_lit 1) Div (int_lit 0)) Add
                       (call_name "open" [str_lit "f"]))
  ∧ evaluate cpython (VStr "1/0 + open('f')") (at_import ∅)
    = Outcome (Raise (Exc ZeroDivisionError "division by zero")) (at_import ∅)
        [Parsed "1/0 + open('f')"; Called op_truediv [VInt 1; VInt 0]]
  ∧ caught_by ZeroDivisionError "EvalError" = false.
Proof.
  split; [by vm_compute|]. split; [|split; by vm_compute].
  right. simpl.
  repeat first [ apply Exists_cons_hd; vm_compute; reflexivity | apply Exists_cons_tl ].
Qed.

(** C1, amended: whatever the expression, every callable that [evaluate]
    applies is an entry of the operator and function tables; nothing else,
    no built-in and no function under a name outside the whitelist, is ever
    applied.  An expression that holds a node of a class outside the allowed
    list (an attribute access as in "os.system('ls')", a keyword argument, a
    comparison, ...) raises [EvalError] from the walk, before anything is
    applied.  An expression that is itself a call of anything but a
    whitelisted name ("__import__('os')", "open('f')") raises [EvalError]
    before anything is applied.  An expression that holds such a call
    anywhere raises and never returns a value: the [EvalError] of the refused
    call, or the exception of a whitelisted operation evaluated before it. *)
Theorem whitelist_is_never_left (H : Host) (vars : gmap string value) :
  (∀ expr f vs,
     Called f vs ∈ trace (evaluate H expr (at_import vars)) →
     f ∈ whitelist
     ∧ (∀ name, f ≠ builtin name)
     ∧ (∀ name, f = math_attr name → name ∈ allowed_func_names))
  ∧ (∀ src body,
       ast_parse H src = Return body →
       Exists (λ n, disallowed n = true) (subnodes (NExpression body)) →
       ∃ n, n ∈ subnodes (NExpression body) ∧ disallowed n = true ∧
         evaluate H (VStr src) (at_import vars)
         = Outcome
             (Raise (Exc EvalError
                       ("Disallowed expression element: "
                        +:+ str_type H (type_of n))))
             (at_import vars) [Parsed src])
  ∧ (∀ src body,
       ast_parse H src = Return body →
       refused_call body = true →
       ∃ msg, evaluate H (VStr src) (at_import vars)
              = Outcome (Raise (Exc EvalError msg)) (at_import vars) [Parsed src])
  ∧ (∀ src body,
       ast_parse H src = Return body →
       reaches_outside body →
       raises (result (evaluate H (VStr src) (at_import vars)))).
Proof.
  assert (∀ src body,
    ast_parse H src = Return body →
    Exists (λ n, disallowed n = true) (subnodes (NExpression body)) →
    ∃ n, n ∈ subnodes (NExpression body) ∧ disallowed n = true ∧
      evaluate H (VStr src) (at_import vars)
      = Outcome
          (Raise (Exc EvalError
                    ("Disallowed expression element: " +:+ str_type H (type_of n))))
          (at_import vars) [Parsed src]) as Hwalk.
  { intros src body Hparse Hex.
    destruct (walk_rejects H body (at_import vars) Hex) as (n & Hin & Hdis & Hrun).
    exists n. split; [done|]. split; [done|]. by apply (evaluate_rejected H src body). }
  split; [|split; [exact Hwalk|split]].
  - intros expr f vs Hin.
    destruct (evaluate_contained H expr (at_import vars)) as [_ Htrace].
    rewrite Forall_forall in Htrace. specialize (Htrace _ Hin).
    apply in_tables_at_import in Htrace. split; [done|]. by apply whitelist_names.
  - intros src body Hparse Hcall.
    destruct (walk_decision body) as [Hex|Hall].
    + destruct (Hwalk src body Hparse Hex) as (n & _ & _ & Hrun). eauto.
    + rewrite (evaluate_checked H src body _ Hparse Hall).
      destruct body as [| |f args kws| | | | |]; try discriminate Hcall.
      destruct f as [| | | | |fname c| |]; try (by eexists).
      unfold refused_call, contains in Hcall.
      destruct (_ALLOWED_FUNCS !! fname) as [g|] eqn:Hfname; [done|].
      rewrite (eval_Call_not_allowed H fname c args kws (at_import vars) Hfname).
      by eexists.
  - intros src body Hparse [Hex|Hcall].
    + destruct (Hwalk src body Hparse Hex) as (n & _ & _ & Hrun).
      rewrite Hrun. by eexists.
    + destruct (walk_decision body) as [Hex|Hall].
      * destruct (Hwalk src body Hparse Hex) as (n & _ & _ & Hrun).
        rewrite Hrun. by eexists.
      * rewrite (evaluate_checked H src body _ Hparse Hall). simpl.
        apply refused_call_raises; [|done].
        by apply Forall_cons in Hall as [_ Hall].
Qed.

Lemma whitelist_is_never_left_witness :
  (∃ msg, evaluate cpython (VStr "open('f')") (at_import ∅)
          = Outcome (Raise (Exc EvalError msg)) (at_import ∅) [Parsed "open('f')"])
  ∧ (∃ msg, evaluate cpython (VStr "__import__('os')") (at_import ∅)
            = Outcome (Raise (Exc EvalError msg)) (at_import ∅)
                [Parsed "__import__('os')"])
  ∧ raises (result (evaluate cpython (VStr "os.system('ls')") (at_import ∅))).
Proof.
  destruct (whitelist_is_never_left cpython ∅) as (_ & _ & Hcall & Houtside).
  split; [|split].
  - by apply (Hcall "open('f')" (call_name "open" [str_lit "f"])).
  - by apply (Hcall "__import__('os')" (call_name "__import__" [str_lit "os"])).
  - apply (Houtside "os.system('ls')"
             (Call (Attribute (name "os") "system" Load) [str_lit "ls"] []));
      [done|].
    left. simpl.
    repeat first [ apply Exists_cons_hd; vm_compute; reflexivity | apply Exists_cons_tl ].
Defined.

(** * Beyond the specification *)

(** ** [_eval_node], case by case *)

Section Cases.
Variable H : Host.

Lemma eval_Name_cases id c σ :
  _eval_node H (Name id c) σ =
  match variables σ !! id with
  | Some v => Outcome (Return v) σ []
  | None =>
      match g_ALLOWED_CONSTS σ !! id with
      | Some v => Outcome (Return v) σ []
      | None => Outcome (Raise (Exc EvalError ("Unknown identifier: " +:+ id))) σ []
      end
  end.
Proof.
  destruct (variables σ !! id) as [v|] eqn:Hv.
  - simpl. unfold bind, gets, getitem, contains. simpl. by rewrite Hv.
  - destruct (g_ALLOWED_CONSTS σ !! id) as [v|] eqn:Hc;
      simpl; unfold bind, gets, getitem, contains; simpl; rewrite Hv; simpl;
      rewrite Hc; simpl; by rewrite ?Hc.
Qed.

Lemma eval_UnaryOp_cases o x σ :
  _eval_node H (UnaryOp o x) σ =
  match g_UNARYOPS σ !! o with
  | None =>
      Outcome (Raise (Exc EvalError
                        ("Unsupported unary operator: " +:+ str_type H (cUnaryop o))))
        σ []
  | Some f =>
      match result (_eval_node H x σ) with
      | Raise e => Outcome (Raise e) σ (trace (_eval_node H x σ))
      | Return a =>
          Outcome (apply_callable H f [a]) σ (trace (_eval_node H x σ) ++ [Called f [a]])
      end
  end.
Proof.
  destruct (g_UNARYOPS σ !! o) as [f|] eqn:Hf.
  - destruct (result (_eval_node H x σ)) as [a|e] eqn:Hx.
    + by apply eval_UnaryOp.
    + by apply (eval_UnaryOp_raises H o x σ e f).
  - simpl. unfold bind, gets, contains. simpl. by rewrite Hf.
Qed.

Lemma eval_BinOp_cases l o r σ :
  _eval_node H (BinOp l o r) σ =
  match result (_eval_node H l σ) with
  | Raise e => Outcome (Raise e) σ (trace (_eval_node H l σ))
  | Return a =>
      match result (_eval_node H r σ) with
      | Raise e =>
          Outcome (Raise e) σ (trace (_eval_node H l σ) ++ trace (_eval_node H r σ))
      | Return b =>
          match g_BINOPS σ !! o with
          | Some f =>
              Outcome (apply_callable H f [a; b]) σ
                (trace (_eval_node H l σ) ++ trace (_eval_node H r σ)
                 ++ [Called f [a; b]])
          | None =>
              Outcome
                (Raise (Exc EvalError
                          ("Unsupported binary operator: "
                           +:+ str_type H (cOperator o))))
                σ (trace (_eval_node H l σ) ++ trace (_eval_node H r σ))
          end
      end
  end.
Proof.
  destruct (result (_eval_node H l σ)) as [a|e] eqn:Hl;
    [|by apply eval_BinOp_left].
  destruct (result (_eval_node H r σ)) as [b|e] eqn:Hr;
    [|by apply (eval_BinOp_right H l o r σ a e)].
  destruct (g_BINOPS σ !! o) as [f|] eqn:Hf; [by apply eval_BinOp|].
  simpl. unfold bind, gets, contains. rewrite Hl. simpl.
  rewrite eval_node_final, Hr. simpl. rewrite eval_node_final, Hf. simpl.
  by rewrite app_nil_r.
Qed.

Lemma eval_Call_cases fname c args kws σ :
  _eval_node H (Call (Name fname c) args kws) σ =
  match g_ALLOWED_FUNCS σ !! fname with
  | None =>
      Outcome (Raise (Exc EvalError ("Function not allowed: " +:+ fname))) σ []
  | Some f =>
      match result (for_each (_eval_node H) args σ) with
      | Raise e => Outcome (Raise e) σ (trace (for_each (_eval_node H) args σ))
      | Return vs =>
          Outcome (apply_callable H f vs) σ
            (trace (for_each (_eval_node H) args σ) ++ [Called f vs])
      end
  end.
Proof.
  destruct (g_ALLOWED_FUNCS σ !! fname) as [f|] eqn:Hf;
    [|by apply eval_Call_not_allowed].
  destruct (result (for_each (_eval_node H) args σ)) as [vs|e] eqn:Hargs.
  - by apply eval_Call.
  - by apply (eval_Call_raises H fname c args kws σ e f).
Qed.

Lemma contains_lookup `{Countable K} {V} (d : gmap K V) (k : K) :
  contains d k = true ↔ is_Some (d !! k).
Proof. unfold contains. apply bool_decide_eq_true. Qed.

Lemma contains_None `{Countable K} {V} (d : gmap K V) (k : K) :
  d !! k = None → contains d k = false.
Proof. intros Hk. unfold contains. rewrite Hk. by apply bool_decide_eq_false_2, is_Some_None. Qed.

Lemma contains_Some `{Countable K} {V} (d : gmap K V) (k : K) v :
  d !! k = Some v → contains d k = true.
Proof. intros Hk. apply contains_lookup. by rewrite Hk. Qed.

End Cases.

(** ** What the walk accepts *)

Lemma forallb_Forall {A} (f : A → bool) (l : list A) :
  forallb f l = true ↔ Forall (λ x, f x = true) l.
Proof.
  induction l as [|x l IH]; simpl; [by split|].
  rewrite andb_true_iff, Forall_cons, IH. done.
Qed.

Lemma operator_allowed_iff o :
  disallowed (NOperator o) = false ↔ contains _BINOPS o = true.
Proof. destruct o; by vm_compute. Qed.

Lemma unaryop_allowed_iff o :
  disallowed (NUnaryop o) = false ↔ contains _UNARYOPS o = true.
Proof. destruct o; by vm_compute. Qed.

Lemma context_allowed_iff c :
  disallowed (NContext c) = false ↔ bool_decide (c = Load) = true.
Proof. destruct c; by vm_compute. Qed.

Lemma supported_nodes (e : expr) :
  Forall (λ n, disallowed n = false) (expr_nodes e) ↔ supported e = true.
Proof.
  induction e as [l o r IHl IHr|o x IHx|f args kws IHf IHargs _|v|x a c _|id c|elts c IHelts|k]
    using expr_ind; simpl.
  - rewrite Forall_cons, Forall_app, Forall_cons, !andb_true_iff,
      IHl, IHr, operator_allowed_iff. by intuition.
  - rewrite !Forall_cons, andb_true_iff, IHx, unaryop_allowed_iff. by intuition.
  - rewrite Forall_cons, !Forall_app, !andb_true_iff, IHf, forallb_Forall, Forall_bind.
    assert (Forall (Forall (λ n, disallowed n = false) ∘ expr_nodes) args
            ↔ Forall (λ x, supported x = true) args) as ->.
    { clear -IHargs. induction IHargs as [|a args Ha _ IH]; [done|].
      rewrite !Forall_cons, IH. simpl. by rewrite Ha. }
    destruct kws as [|kw kws]; simpl; [by intuition|].
    rewrite Forall_cons. split; [|by intros [_ ?]]. by intros (_ & _ & _ & Hkw & _).
  - rewrite Forall_singleton. done.
  - rewrite Forall_cons. split; [|done]. by intros [Hx _].
  - rewrite Forall_cons, Forall_singleton, context_allowed_iff. by intuition.
  - rewrite Forall_cons, Forall_app, Forall_singleton, andb_true_iff,
      forallb_Forall, Forall_bind, context_allowed_iff.
    assert (Forall (Forall (λ n, disallowed n = false) ∘ expr_nodes) elts
            ↔ Forall (λ x, supported x = true) elts) as ->.
    { clear -IHelts. induction IHelts as [|a elts Ha _ IH]; [done|].
      rewrite !Forall_cons, IH. simpl. by rewrite Ha. }
    by intuition.
  - rewrite Forall_singleton. done.
Qed.

(** X1: the node walk of [evaluate] lets a parsed text through to
    [_eval_node] exactly when its tree is built from the ten binary and three
    unary operators of the tables, calls without keyword arguments, names,
    literals and tuples; the outcome is then that of [_eval_node] on the tree.
    Every other tree is refused with "Disallowed expression element" naming
    the class of one of its nodes, and nothing is evaluated. *)
Theorem walk_accepts_exactly (H : Host) (src : string) (body : expr) (σ : state) :
  ast_parse H src = Return body →
  (supported body = true →
   evaluate H (VStr src) σ
   = Outcome (result (_eval_node H body σ)) σ
       (Parsed src :: trace (_eval_node H body σ)))
  ∧ (supported body = false →
     ∃ n, n ∈ subnodes (NExpression body) ∧ disallowed n = true ∧
       evaluate H (VStr src) σ
       = Outcome
           (Raise (Exc EvalError
                     ("Disallowed expression element: " +:+ str_type H (type_of n))))
           σ [Parsed src]).
Proof.
  intros Hparse. split; intros Hsupported.
  - apply evaluate_checked; [done|]. simpl.
    apply Forall_cons. split; [done|]. by apply supported_nodes.
  - destruct (walk_decision body) as [Hex|Hall].
    + destruct (walk_rejects H body σ Hex) as (n & Hin & Hdis & Hrun).
      exists n. split; [done|]. split; [done|].
      by apply (evaluate_rejected H src body σ n).
    + simpl in Hall. apply Forall_cons in Hall as [_ Hall].
      apply supported_nodes in Hall. by rewrite Hall in Hsupported.
Qed.

Lemma walk_accepts_exactly_witness :
  (∃ n, disallowed n = true ∧
     evaluate cpython (VStr "os.system('ls')") (at_import ∅)
     = Outcome
         (Raise (Exc EvalError
                   ("Disallowed expression element: "
                    +:+ str_type cpython (type_of n))))
         (at_import ∅) [Parsed "os.system('ls')"])
  ∧ result (evaluate cpython (VStr "2 + 3") (at_import ∅)) = Return (VInt 5).
Proof.
  split.
  - destruct (walk_accepts_exactly cpython "os.system('ls')"
                (Call (Attribute (name "os") "system" Load) [str_lit "ls"] [])
                (at_import ∅) eq_refl) as [_ Hrefused].
    destruct (Hrefused eq_refl) as (n & _ & Hdis & Hrun). by exists n.
  - destruct (walk_accepts_exactly cpython "2 + 3"
                (BinOp (int_lit 2) Add (int_lit 3)) (at_import ∅) eq_refl)
      as [Haccepted _].
    rewrite (Haccepted eq_refl). by vm_compute.
Defined.

(** ** Where a value and where an exception can come from *)

Section Origins.
Variable H : Host.

Lemma for_each_returns_all (P : expr → Prop) (args : list expr) σ vs :
  Forall (λ a, ∀ v, result (_eval_node H a σ) = Return v → P a) args →
  result (for_each (_eval_node H) args σ) = Return vs →
  Forall P args.
Proof.
  intros Hall. revert vs. induction Hall as [|a args Ha _ IH]; intros vs Hret; [done|].
  rewrite for_each_cons in Hret.
  destruct (result (_eval_node H a σ)) as [b|e] eqn:Hb; [|done].
  destruct (result (for_each (_eval_node H) args σ)) as [bs|e] eqn:Hbs; [|done].
  apply Forall_cons. split; [by apply (Ha b)|by apply (IH bs)].
Qed.

Lemma eval_returns_evaluable (e : expr) σ v :
  result (_eval_node H e σ) = Return v → evaluable σ e = true.
Proof.
  revert v.
  induction e as [l o r IHl IHr|o x IHx|f args kws _ IHargs _|w|x a c _|id c|elts c _|k]
    using expr_ind; intros v Hret; try done.
  - rewrite eval_BinOp_cases in Hret.
    destruct (result (_eval_node H l σ)) as [a|?]; [|done].
    destruct (result (_eval_node H r σ)) as [b|?]; [|done].
    destruct (g_BINOPS σ !! o) as [f|] eqn:Hf; [|done].
    simpl. by rewrite (IHl a), (IHr b), (contains_Some _ _ _ Hf).
  - rewrite eval_UnaryOp_cases in Hret.
    destruct (g_UNARYOPS σ !! o) as [f|] eqn:Hf; [|done].
    destruct (result (_eval_node H x σ)) as [a|?]; [|done].
    simpl. by rewrite (IHx a), (contains_Some _ _ _ Hf).
  - destruct f as [| | | | |fname c| |]; try done.
    rewrite eval_Call_cases in Hret.
    destruct (g_ALLOWED_FUNCS σ !! fname) as [f|] eqn:Hf; [|done].
    destruct (result (for_each (_eval_node H) args σ)) as [vs|?] eqn:Hargs; [|done].
    simpl. rewrite (contains_Some _ _ _ Hf). simpl. apply forallb_Forall.
    by apply (for_each_returns_all (λ a, evaluable σ a = true) args σ vs).
  - simpl in Hret. simpl. by destruct (isinstance_number w).
  - rewrite eval_Name_cases in Hret. simpl.
    destruct (variables σ !! id) as [w|] eqn:Hv;
      [by rewrite (contains_Some _ _ _ Hv)|].
    destruct (g_ALLOWED_CONSTS σ !! id) as [w|] eqn:Hc; [|done].
    rewrite (contains_Some _ _ _ Hc). by rewrite orb_true_r.
Qed.

Lemma for_each_raise_origin (args : list expr) σ exn :
  Forall (λ a, ∀ exn, result (_eval_node H a σ) = Raise exn →
               own_or_applied H σ a (trace (_eval_node H a σ)) exn) args →
  result (for_each (_eval_node H) args σ) = Raise exn →
  (forallb (evaluable σ) args = false ∧ exc_type exn = EvalError)
  ∨ (∃ f vs, last (trace (for_each (_eval_node H) args σ)) = Some (Called f vs)
             ∧ in_tables σ f ∧ apply_callable H f vs = Raise exn).
Proof.
  induction 1 as [|a args Ha _ IH]; intros Hraise; [done|].
  rewrite for_each_cons in Hraise. rewrite for_each_cons. simpl.
  destruct (result (_eval_node H a σ)) as [b|e] eqn:Hb.
  - destruct (result (for_each (_eval_node H) args σ)) as [bs|e] eqn:Hbs; [done|].
    simpl in Hraise. injection Hraise as ->.
    destruct (IH eq_refl) as [[Hargs Hown]|(f & vs & Hlast & Hf & Happly)].
    + left. by rewrite Hargs, andb_false_r.
    + right. exists f, vs. simpl. by rewrite last_app, Hlast.
  - simpl in Hraise. injection Hraise as ->.
    destruct (Ha exn eq_refl) as [[Harg Hown]|(f & vs & Hlast & Hf & Happly)].
    + left. by rewrite Harg.
    + right. by exists f, vs.
Qed.

Lemma raise_origin (e : expr) σ exn :
  result (_eval_node H e σ) = Raise exn →
  own_or_applied H σ e (trace (_eval_node H e σ)) exn.
Proof.
  revert exn.
  induction e as [l o r IHl IHr|o x IHx|f args kws _ IHargs _|w|x a c _|id c|elts c _|k]
    using expr_ind; intros exn Hraise.
  - rewrite eval_BinOp_cases in Hraise. rewrite eval_BinOp_cases. unfold own_or_applied.
    simpl evaluable.
    destruct (result (_eval_node H l σ)) as [a|e] eqn:Hl.
    + destruct (result (_eval_node H r σ)) as [b|e] eqn:Hr.
      * destruct (g_BINOPS σ !! o) as [f|] eqn:Hf; simpl in Hraise |- *.
        -- right. exists f, [a; b]. rewrite !last_app. simpl.
           split; [done|]. split; [|done]. left. by exists o.
        -- injection Hraise as <-. left. by rewrite (contains_None _ _ Hf), andb_false_r.
      * simpl in Hraise |- *. injection Hraise as ->.
        destruct (IHr exn eq_refl) as [[Hev Hown]|(f & vs & Hlast & Hf & Happly)].
        -- left. by rewrite Hev, andb_false_r.
        -- right. exists f, vs. by rewrite last_app, Hlast.
    + simpl in Hraise |- *. injection Hraise as ->.
      destruct (IHl exn eq_refl) as [[Hev Hown]|(f & vs & Hlast & Hf & Happly)].
      * left. by rewrite Hev.
      * right. by exists f, vs.
  - rewrite eval_UnaryOp_cases in Hraise. rewrite eval_UnaryOp_cases. unfold own_or_applied.
    simpl evaluable.
    destruct (g_UNARYOPS σ !! o) as [f|] eqn:Hf.
    + rewrite (contains_Some _ _ _ Hf).
      destruct (result (_eval_node H x σ)) as [a|e] eqn:Hx; simpl in Hraise |- *.
      * right. exists f, [a]. rewrite last_app. simpl.
        split; [done|]. split; [|done]. right. left. by exists o.
      * injection Hraise as ->.
        destruct (IHx exn eq_refl) as [[Hev Hown]|(g & vs & Hlast & Hg & Happly)].
        -- by left.
        -- right. by exists g, vs.
    + simpl in Hraise. injection Hraise as <-. left. by rewrite (contains_None _ _ Hf).
  - destruct f as [| | | | |fname c| |];
      try (simpl in Hraise; injection Hraise as <-; by left).
    rewrite eval_Call_cases in Hraise. rewrite eval_Call_cases. unfold own_or_applied.
    simpl evaluable.
    destruct (g_ALLOWED_FUNCS σ !! fname) as [f|] eqn:Hf.
    + rewrite (contains_Some _ _ _ Hf).
      destruct (result (for_each (_eval_node H) args σ)) as [vs|e] eqn:Hargs;
        simpl in Hraise |- *.
      * right. exists f, vs. rewrite last_app. simpl.
        split; [done|]. split; [|done]. right. right. by exists fname.
      * injection Hraise as ->.
        destruct (for_each_raise_origin args σ exn IHargs Hargs)
          as [[Hev Hown]|(g & ws & Hlast & Hg & Happly)]; [by left|].
        right. by exists g, ws.
    + simpl in Hraise. injection Hraise as <-. left. by rewrite (contains_None _ _ Hf).
  - simpl in Hraise. left. simpl. destruct (isinstance_number w); [done|].
    by injection Hraise as <-.
  - simpl in Hraise. injection Hraise as <-. by left.
  - rewrite eval_Name_cases in Hraise. left. simpl.
    destruct (variables σ !! id) as [w|] eqn:Hv; [done|].
    destruct (g_ALLOWED_CONSTS σ !! id) as [w|] eqn:Hc; [done|].
    injection Hraise as <-.
    by rewrite (contains_None _ _ Hv), (contains_None _ _ Hc).
  - simpl in Hraise. injection Hraise as <-. by left.
  - simpl in Hraise. injection Hraise as <-. by left.
Qed.

End Origins.

Lemma check_nodes_fail_any (H : Host) (nodes : list node) :
  Exists (λ n, disallowed n = true) nodes →
  ∃ n, n ∈ nodes ∧ disallowed n = true ∧
    ∀ σ, check_nodes H nodes σ =
         Outcome (Raise (Exc EvalError
                           ("Disallowed expression element: "
                            +:+ str_type H (type_of n))))
           σ [].
Proof.
  induction nodes as [|n nodes IH]; intros Hex; [by apply Exists_nil in Hex|].
  simpl. destruct (isinstance_any n allowed_node_types) eqn:Hn.
  - apply Exists_cons in Hex as [Hex|Hex].
    + unfold disallowed in Hex. by rewrite Hn in Hex.
    + destruct (IH Hex) as (n' & Hin & Hdis & Hrun).
      exists n'. split; [by right|done].
  - exists n. split; [by left|]. split; [|done]. unfold disallowed. by rewrite Hn.
Qed.

Lemma evaluate_cases (H : Host) (src : string) (body : expr) :
  ast_parse H src = Return body →
  (supported body = true ∧
   ∀ σ, evaluate H (VStr src) σ
        = Outcome (result (_eval_node H body σ)) σ
            (Parsed src :: trace (_eval_node H body σ)))
  ∨ (supported body = false ∧
     ∃ msg, ∀ σ, evaluate H (VStr src) σ
                 = Outcome (Raise (Exc EvalError msg)) σ [Parsed src]).
Proof.
  intros Hparse. destruct (walk_decision body) as [Hex|Hall].
  - right. split.
    + destruct (supported body) eqn:Hs; [|done].
      apply supported_nodes in Hs.
      apply Exists_exists in Hex as (m & Hm & Hbad). simpl in Hm.
      apply elem_of_cons in Hm as [->|Hm]; [done|].
      rewrite Forall_forall in Hs. by rewrite (Hs m Hm) in Hbad.
    + rewrite <- ast_walk_nodes in Hex.
      destruct (check_nodes_fail_any H _ Hex) as (n & _ & _ & Hrun).
      eexists. intros σ. by apply (evaluate_rejected H src body σ n).
  - left. split; [|intros σ; by apply evaluate_checked].
    simpl in Hall. apply Forall_cons in Hall as [_ Hall]. by apply supported_nodes.
Qed.

(** X2: [evaluate] returns a value only for a string whose tree passes the
    walk and lies in the evaluable fragment: every literal in it is a number,
    every name read is a variable or a constant, every operator is in its
    table, every call is a direct call of a name of the function table, and
    no tuple occurs.  On every other input it raises. *)
Theorem value_only_if_evaluable (H : Host) (expr v : value) (σ : state) :
  result (evaluate H expr σ) = Return v →
  ∃ src body,
    expr = VStr src ∧ ast_parse H src = Return body
    ∧ supported body = true ∧ evaluable σ body = true
    ∧ result (_eval_node H body σ) = Return v.
Proof.
  intros Hret. destruct expr as [| | | |src| | |]; try done.
  destruct (ast_parse H src) as [body|e] eqn:Hparse.
  - exists src, body.
    destruct (evaluate_cases H src body Hparse) as [[Hs Hrun]|[Hs [msg Hrun]]];
      rewrite Hrun in Hret; [|done].
    simpl in Hret. repeat split; try done. by apply (eval_returns_evaluable H body σ v).
  - unfold evaluate, try_except, parse in Hret. unfold bind at 1 in Hret.
    simpl in Hret. rewrite Hparse in Hret. simpl in Hret.
    by destruct (caught_by (exc_type e) "SyntaxError").
Qed.

Lemma value_only_if_evaluable_witness :
  ∃ body, ast_parse cpython "2 ** 3 ** 2" = Return body
          ∧ supported body = true ∧ evaluable (at_import ∅) body = true.
Proof.
  destruct (value_only_if_evaluable cpython (VStr "2 ** 3 ** 2") (VInt 512)
              (at_import ∅)) as (src & body & [= <-] & Hparse & Hs & He & _);
    [by vm_compute|].
  by exists body.
Defined.

(** X3: on a tree of the evaluable fragment that is nested no deeper than
    the interpreter's recursion limit admits, [_eval_node] raises nothing of
    its own: whenever the evaluation raises, the exception is the one that the
    last callable applied, an entry of the tables, raised on its arguments. *)
Theorem evaluable_raises_only_applied (H : Host) (e : expr) (σ : state)
    (exn : exception) :
  (frames e ≤ frames_available)%nat →
  evaluable σ e = true →
  result (_eval_node H e σ) = Raise exn →
  ∃ f args,
    last (trace (_eval_node H e σ)) = Some (Called f args)
    ∧ in_tables σ f
    ∧ apply_callable H f args = Raise exn.
Proof.
  intros _ Hev Hraise.
  destruct (raise_origin H e σ exn Hraise) as [[Hnot _]|Happlied]; [|done].
  by rewrite Hev in Hnot.
Qed.

Lemma evaluable_raises_only_applied_witness :
  ∃ f args,
    last (trace (_eval_node cpython (BinOp (int_lit 1) Div (int_lit 0)) (at_import ∅)))
    = Some (Called f args)
    ∧ apply_callable cpython f args = Raise (Exc ZeroDivisionError "division by zero").
Proof.
  destruct (evaluable_raises_only_applied cpython (BinOp (int_lit 1) Div (int_lit 0))
              (at_import ∅) (Exc ZeroDivisionError "division by zero"))
    as (f & args & Hlast & _ & Happly);
    [by apply Nat.leb_le|by vm_compute|by vm_compute|].
  by exists f, args.
Defined.

(** X4: for a text whose tree is nested no deeper than the interpreter's
    recursion limit admits, and for every argument that is no string, the
    exceptions that can leave [evaluate] are of four kinds: the [TypeError]
    for an argument that is no string; an exception of the parser that is no
    [SyntaxError], passed on as it is; an [EvalError], which is also what a
    [SyntaxError] of the parser, an [IndentationError] or a [TabError]
    becomes; and the exception that the last callable applied, an entry of
    the tables, raised on its arguments. *)
Theorem escaping_exceptions (H : Host) (expr : value) (σ : state) (exn : exception) :
  (∀ src body, expr = VStr src → ast_parse H src = Return body →
               (frames body ≤ frames_available)%nat) →
  result (evaluate H expr σ) = Raise exn →
  (exn = Exc TypeError "expr must be a string" ∧ ∀ src, expr ≠ VStr src)
  ∨ (∃ src, expr = VStr src ∧ ast_parse H src = Raise exn
            ∧ caught_by (exc_type exn) "SyntaxError" = false)
  ∨ (exc_type exn = EvalError
     ∧ ∀ src e, expr = VStr src → ast_parse H src = Raise e →
         caught_by (exc_type e) "SyntaxError" = true
         ∧ exn = Exc EvalError ("Syntax error: " +:+ exc_msg e))
  ∨ (∃ f args,
       last (trace (evaluate H expr σ)) = Some (Called f args)
       ∧ in_tables σ f
       ∧ apply_callable H f args = Raise exn).
Proof.
  intros _ Hraise.
  destruct expr as [| | | |src| | |];
    try (left; simpl in Hraise; injection Hraise as <-; by split).
  right. destruct (ast_parse H src) as [body|e] eqn:Hparse.
  - destruct (evaluate_cases H src body Hparse) as [[Hs Hrun]|[Hs [msg Hrun]]];
      rewrite Hrun in Hraise |- *; simpl in Hraise.
    + destruct (raise_origin H body σ exn Hraise)
        as [[_ Hown]|(f & args & Hlast & Hf & Happly)].
      { right; left. split; [done|]. intros src' e' [= <-]. by rewrite Hparse. }
      right. right. exists f, args. split; [|done]. simpl.
      destruct (trace (_eval_node H body σ)); [done|]. by rewrite last_cons, Hlast.
    + injection Hraise as <-. right; left. split; [done|].
      intros src' e' [= <-]. by rewrite Hparse.
  - unfold evaluate, try_except, parse in Hraise. unfold bind at 1 in Hraise.
    simpl in Hraise. rewrite Hparse in Hraise. simpl in Hraise.
    destruct (caught_by (exc_type e) "SyntaxError") eqn:He; simpl in Hraise;
      injection Hraise as <-.
    + right; left. split; [done|]. intros src' e' [= <-]. rewrite Hparse.
      intros [= <-]. by rewrite He.
    + left. by exists src.
Qed.

Lemma escaping_exceptions_witness :
  ∃ f args,
    last (trace (evaluate cpython (VStr "sqrt(-1)") (at_import ∅)))
    = Some (Called f args)
    ∧ apply_callable cpython f args = Raise (Exc ValueError "math domain error").
Proof.
  destruct (escaping_exceptions cpython (VStr "sqrt(-1)") (at_import ∅)
              (Exc ValueError "math domain error"))
    as [[[=] _]|[(src & [= <-] & Hparse & _)|[[[=] _]|(f & args & Hlast & _ & Happly)]]];
    [|by vm_compute| |by exists f, args].
  - intros src body [= <-] Hparse. vm_compute in Hparse. injection Hparse as <-.
    by apply Nat.leb_le.
  - by vm_compute in Hparse.
Defined.

(** ** How often a callable is applied *)

Section Counting.
Variable H : Host.

Lemma for_each_trace_bound (args : list expr) σ :
  Forall (λ a, (length (trace (_eval_node H a σ)) ≤ applications a)%nat
               ∧ (∀ v, result (_eval_node H a σ) = Return v →
                       length (trace (_eval_node H a σ)) = applications a)) args →
  (length (trace (for_each (_eval_node H) args σ)) ≤ sum_list_with applications args)%nat
  ∧ (∀ vs, result (for_each (_eval_node H) args σ) = Return vs →
           length (trace (for_each (_eval_node H) args σ))
           = sum_list_with applications args).
Proof.
  induction 1 as [|a args [Hle Heq] _ [IHle IHeq]]; [by split|].
  rewrite for_each_cons. simpl.
  destruct (result (_eval_node H a σ)) as [b|e] eqn:Hb.
  - specialize (Heq b eq_refl).
    destruct (result (for_each (_eval_node H) args σ)) as [bs|e] eqn:Hbs; simpl;
      rewrite length_app.
    + rewrite (IHeq bs eq_refl). split; [lia|]. intros _ _. lia.
    + split; [lia|done].
  - simpl. split; [lia|done].
Qed.

Lemma trace_bound (e : expr) σ :
  (length (trace (_eval_node H e σ)) ≤ applications e)%nat
  ∧ (∀ v, result (_eval_node H e σ) = Return v →
          length (trace (_eval_node H e σ)) = applications e).
Proof.
  induction e as [l o r [IHl IHl'] [IHr IHr']|o x [IHx IHx']|f args kws _ IHargs _
                 |w|x a c _|id c|elts c _|k] using expr_ind.
  - rewrite eval_BinOp_cases.
    destruct (result (_eval_node H l σ)) as [a|e] eqn:Hl; simpl; [|split; [lia|done]].
    specialize (IHl' a eq_refl).
    destruct (result (_eval_node H r σ)) as [b|e] eqn:Hr; simpl;
      [|rewrite length_app; split; [lia|done]].
    specialize (IHr' b eq_refl).
    destruct (g_BINOPS σ !! o) as [f|]; simpl; rewrite !length_app; simpl;
      (split; [lia|]); [intros; lia|done].
  - rewrite eval_UnaryOp_cases.
    destruct (g_UNARYOPS σ !! o) as [f|]; simpl; [|split; [lia|done]].
    destruct (result (_eval_node H x σ)) as [a|e] eqn:Hx; simpl;
      [|split; [lia|done]].
    specialize (IHx' a eq_refl). rewrite length_app. simpl. split; intros; lia.
  - destruct f as [| | | | |fname c| |]; try (simpl; split; [lia|done]).
    rewrite eval_Call_cases. destruct (for_each_trace_bound args σ IHargs) as [Hle Heq].
    destruct (g_ALLOWED_FUNCS σ !! fname) as [f|]; simpl; [|split; [lia|done]].
    destruct (result (for_each (_eval_node H) args σ)) as [vs|e] eqn:Hargs; simpl;
      [|split; [lia|done]].
    specialize (Heq vs eq_refl). rewrite length_app. simpl. split; intros; lia.
  - simpl. destruct (isinstance_number w); simpl; split; done.
  - simpl. split; done.
  - rewrite eval_Name_cases.
    destruct (variables σ !! id); [by split|].
    by destruct (g_ALLOWED_CONSTS σ !! id).
  - simpl. split; done.
  - simpl. split; done.
Qed.

End Counting.

(** X5: [_eval_node] applies a callable at most once for each operator and
    call node of the tree, and exactly once for each when it returns a value:
    the number of applications of a successful evaluation is the number of
    those nodes. *)
Theorem one_application_per_node (H : Host) (e : expr) (σ : state) :
  (length (trace (_eval_node H e σ)) ≤ applications e)%nat
  ∧ (∀ v, result (_eval_node H e σ) = Return v →
          length (trace (_eval_node H e σ)) = applications e).
Proof. apply trace_bound. Qed.

Lemma one_application_per_node_witness :
  length (trace (_eval_node cpython
                   (BinOp (int_lit 2) Pow (BinOp (int_lit 3) Pow (int_lit 2)))
                   (at_import ∅))) = 2%nat.
Proof.
  by apply (proj2 (one_application_per_node cpython
                     (BinOp (int_lit 2) Pow (BinOp (int_lit 3) Pow (int_lit 2)))
                     (at_import ∅)) (VInt 512)).
Defined.

(** ** Which variables an evaluation reads *)

Section Reads.
Variable H : Host.

Lemma for_each_same_reads (args : list expr) σ σ' :
  Forall (λ a, (∀ id, id ∈ names_read a → variables σ !! id = variables σ' !! id) →
               result (_eval_node H a σ) = result (_eval_node H a σ')
               ∧ trace (_eval_node H a σ) = trace (_eval_node H a σ')) args →
  (∀ id, id ∈ args ≫= names_read → variables σ !! id = variables σ' !! id) →
  result (for_each (_eval_node H) args σ) = result (for_each (_eval_node H) args σ')
  ∧ trace (for_each (_eval_node H) args σ) = trace (for_each (_eval_node H) args σ').
Proof.
  induction 1 as [|a args Ha _ IH]; intros Hvars; [done|].
  rewrite !for_each_cons.
  destruct Ha as [Har Hat].
  { intros id Hid. apply Hvars. rewrite bind_cons. apply elem_of_app. by left. }
  destruct IH as [IHr IHt].
  { intros id Hid. apply Hvars. rewrite bind_cons. apply elem_of_app. by right. }
  rewrite <- Har, <- Hat, <- IHr, <- IHt.
  destruct (result (_eval_node H a σ)); [|done].
  by destruct (result (for_each (_eval_node H) args σ)).
Qed.

Lemma same_reads (e : expr) σ σ' :
  same_tables σ σ' →
  (∀ id, id ∈ names_read e → variables σ !! id = variables σ' !! id) →
  result (_eval_node H e σ) = result (_eval_node H e σ')
  ∧ trace (_eval_node H e σ) = trace (_eval_node H e σ').
Proof.
  intros (Hbin & Hun & Hfun & Hconst).
  induction e as [l o r IHl IHr|o x IHx|f args kws _ IHargs _|w|x a c _|id c|elts c _|k]
    using expr_ind; intros Hvars.
  - rewrite !eval_BinOp_cases, <- Hbin.
    destruct IHl as [<- <-].
    { intros id Hid. apply Hvars. simpl. apply elem_of_app. by left. }
    destruct IHr as [<- <-].
    { intros id Hid. apply Hvars. simpl. apply elem_of_app. by right. }
    destruct (result (_eval_node H l σ)); [|done].
    destruct (result (_eval_node H r σ)); [|done].
    by destruct (g_BINOPS σ !! o).
  - rewrite !eval_UnaryOp_cases, <- Hun. destruct (IHx Hvars) as [<- <-].
    destruct (g_UNARYOPS σ !! o); [|done].
    by destruct (result (_eval_node H x σ)).
  - destruct f as [| | | | |fname c| |]; try done.
    rewrite !eval_Call_cases, <- Hfun.
    destruct (for_each_same_reads args σ σ' IHargs Hvars) as [<- <-].
    destruct (g_ALLOWED_FUNCS σ !! fname); [|done].
    by destruct (result (for_each (_eval_node H) args σ)).
  - simpl. by destruct (isinstance_number w).
  - done.
  - rewrite !eval_Name_cases, <- Hconst, <- (Hvars id) by (simpl; by left).
    destruct (variables σ !! id); [done|].
    by destruct (g_ALLOWED_CONSTS σ !! id).
  - done.
  - done.
Qed.

End Reads.

(** X6: what [evaluate] returns or raises, and what it applies, depends on
    the variables only through the names the tree reads as values.  Two
    variable mappings that agree on those names give the same result and the
    same applications; the name of a called function is not one of them, so a
    variable never changes which function a call reaches. *)
Theorem result_depends_on_names_read (H : Host) (src : string) (body : expr)
    (vars vars' : gmap string value) :
  ast_parse H src = Return body →
  (∀ id, id ∈ names_read body → vars !! id = vars' !! id) →
  result (evaluate H (VStr src) (at_import vars))
  = result (evaluate H (VStr src) (at_import vars'))
  ∧ trace (evaluate H (VStr src) (at_import vars))
    = trace (evaluate H (VStr src) (at_import vars')).
Proof.
  intros Hparse Hvars.
  destruct (same_reads H body (at_import vars) (at_import vars')) as [Hr Ht];
    [done|done|].
  destruct (evaluate_cases H src body Hparse) as [[_ Hrun]|[_ [msg Hrun]]];
    rewrite !Hrun; simpl; [|done].
  by rewrite Hr, Ht.
Qed.

Lemma result_depends_on_names_read_witness :
  result (run "x + 1" {["x" := VInt 4]})
  = result (run "x + 1" (<["sqrt" := VInt 0]> {["x" := VInt 4]}))
  ∧ trace (run "x + 1" {["x" := VInt 4]})
    = trace (run "x + 1" (<["sqrt" := VInt 0]> {["x" := VInt 4]})).
Proof.
  apply (result_depends_on_names_read cpython "x + 1"
           (BinOp (name "x") Add (int_lit 1))); [by vm_compute|].
  intros id Hid. apply list_elem_of_singleton in Hid as ->. by vm_compute.
Defined.

(** ** Bit operators and unary operators on integers *)

(** X7: on integers, a left shift followed by a right shift by the same
    count, not negative and at most [max_shift], gives the operand back, and
    so does [^] applied twice with the same right operand.  A negative shift
    count raises the interpreter's [ValueError], which is no [EvalError]. *)
Theorem shift_and_xor_round_trip (H : Host) (vars : gmap string value)
    (l r : expr) (a n : Z) :
  result (_eval_node H l (at_import vars)) = Return (VInt a) →
  result (_eval_node H r (at_import vars)) = Return (VInt n) →
  (0 ≤ n ≤ max_shift →
   result (_eval_node H (BinOp (BinOp l LShift r) RShift r) (at_import vars))
   = Return (VInt a))
  ∧ result (_eval_node H (BinOp (BinOp l BitXor r) BitXor r) (at_import vars))
    = Return (VInt a)
  ∧ (n < 0 →
     (∃ msg, result (_eval_node H (BinOp l LShift r) (at_import vars))
             = Raise (Exc ValueError msg))
     ∧ (∃ msg, result (_eval_node H (BinOp l RShift r) (at_import vars))
               = Raise (Exc ValueError msg))
     ∧ caught_by ValueError "EvalError" = false).
Proof.
  intros Hl Hr. split; [|split].
  - intros Hn.
    assert (result (_eval_node H (BinOp l LShift r) (at_import vars))
            = Return (VInt (Z.shiftl a n))) as Hshift.
    { rewrite (eval_BinOp H l LShift r _ _ _ op_lshift Hl Hr eq_refl). simpl.
      rewrite bool_decide_eq_false_2 by lia.
      by rewrite bool_decide_eq_true_2 by lia. }
    rewrite (eval_BinOp H _ RShift r _ _ _ op_rshift Hshift Hr eq_refl). simpl.
    rewrite bool_decide_eq_false_2 by lia.
    by rewrite Z.shiftr_shiftl_l, Z.sub_diag, Z.shiftl_0_r by lia.
  - assert (result (_eval_node H (BinOp l BitXor r) (at_import vars))
            = Return (VInt (Z.lxor a n))) as Hxor.
    { by rewrite (eval_BinOp H l BitXor r _ _ _ op_xor Hl Hr eq_refl). }
    rewrite (eval_BinOp H _ BitXor r _ _ _ op_xor Hxor Hr eq_refl). simpl.
    by rewrite Z.lxor_assoc, Z.lxor_nilpotent, Z.lxor_0_r.
  - intros Hn. split; [|split; [|done]].
    + rewrite (eval_BinOp H l LShift r _ _ _ op_lshift Hl Hr eq_refl). simpl.
      rewrite bool_decide_eq_true_2 by lia. by eexists.
    + rewrite (eval_BinOp H l RShift r _ _ _ op_rshift Hl Hr eq_refl). simpl.
      rewrite bool_decide_eq_true_2 by lia. by eexists.
Qed.

Lemma shift_and_xor_round_trip_witness :
  result (_eval_node cpython
            (BinOp (BinOp (name "x") LShift (int_lit 3)) RShift (int_lit 3))
            (at_import {["x" := VInt (-5)]}))
  = Return (VInt (-5)).
Proof.
  destruct (shift_and_xor_round_trip cpython {["x" := VInt (-5)]} (name "x")
              (int_lit 3) (-5) 3) as [Hshift _]; [by vm_compute|by vm_compute|].
  apply Hshift. unfold max_shift. lia.
Defined.

(** X8: the unary operators on an integer or boolean operand give an
    integer: [+x] is the operand's integer value, [-x] its negative and [~x]
    is [-x - 1]; hence [-(-x)] and [~~x] give the operand's integer value
    back. *)
Theorem unary_operators_on_integers (H : Host) (vars : gmap string value)
    (x : expr) (v : value) (n : Z) :
  result (_eval_node H x (at_import vars)) = Return v →
  as_int v = Some n →
  result (_eval_node H (UnaryOp UAdd x) (at_import vars)) = Return (VInt n)
  ∧ result (_eval_node H (UnaryOp USub x) (at_import vars)) = Return (VInt (- n))
  ∧ result (_eval_node H (UnaryOp Invert x) (at_import vars)) = Return (VInt (- n - 1))
  ∧ result (_eval_node H (UnaryOp USub (UnaryOp USub x)) (at_import vars))
    = Return (VInt n)
  ∧ result (_eval_node H (UnaryOp Invert (UnaryOp Invert x)) (at_import vars))
    = Return (VInt n).
Proof.
  intros Hx Hv.
  assert (result (_eval_node H (UnaryOp USub x) (at_import vars)) = Return (VInt (- n)))
    as Hneg.
  { rewrite (eval_UnaryOp H USub x _ v op_neg Hx eq_refl). simpl.
    unfold apply_unary. destruct v; simplify_eq/=; done. }
  assert (result (_eval_node H (UnaryOp Invert x) (at_import vars))
          = Return (VInt (- n - 1))) as Hinv.
  { rewrite (eval_UnaryOp H Invert x _ v op_invert Hx eq_refl). simpl.
    unfold apply_unary. destruct v; simplify_eq/=; unfold Z.lnot; do 2 f_equal; lia. }
  split; [|split; [done|split; [done|split]]].
  - rewrite (eval_UnaryOp H UAdd x _ v op_pos Hx eq_refl). simpl.
    unfold apply_unary. destruct v; simplify_eq/=; done.
  - rewrite (eval_UnaryOp H USub _ _ _ op_neg Hneg eq_refl). simpl.
    by rewrite Z.opp_involutive.
  - rewrite (eval_UnaryOp H Invert _ _ _ op_invert Hinv eq_refl). simpl.
    unfold Z.lnot. do 2 f_equal. lia.
Qed.

Lemma unary_operators_on_integers_witness :
  result (_eval_node cpython (UnaryOp Invert (Constant (VBool true))) (at_import ∅))
  = Return (VInt (-2)).
Proof.
  destruct (unary_operators_on_integers cpython ∅ (Constant (VBool true))
              (VBool true) 1) as (_ & _ & Hinvert & _); [by vm_compute|done|].
  exact Hinvert.
Defined.

(** X9: on integers with a divisor that is not zero, [//] and [%] fit
    together: [(l // r) * r + l % r] gives the value of [l] back, and the
    remainder has the sign of the divisor and is smaller than it in absolute
    value. *)
Theorem floor_division_and_modulo (H : Host) (vars : gmap string value)
    (l r : expr) (a n : Z) :
  result (_eval_node H l (at_import vars)) = Return (VInt a) →
  result (_eval_node H r (at_import vars)) = Return (VInt n) →
  n ≠ 0 →
  result (_eval_node H (BinOp (BinOp (BinOp l FloorDiv r) Mult r) Add (BinOp l Mod r))
            (at_import vars))
  = Return (VInt a)
  ∧ ∃ m, result (_eval_node H (BinOp l Mod r) (at_import vars)) = Return (VInt m)
         ∧ (0 < n → 0 ≤ m < n) ∧ (n < 0 → n < m ≤ 0).
Proof.
  intros Hl Hr Hn.
  assert (result (_eval_node H (BinOp l FloorDiv r) (at_import vars))
          = Return (VInt (a `div` n))) as Hdiv.
  { rewrite (eval_BinOp H l FloorDiv r _ _ _ op_floordiv Hl Hr eq_refl). simpl.
    by rewrite bool_decide_eq_false_2 by done. }
  assert (result (_eval_node H (BinOp l Mod r) (at_import vars))
          = Return (VInt (a `mod` n))) as Hmod.
  { rewrite (eval_BinOp H l Mod r _ _ _ op_mod Hl Hr eq_refl). simpl.
    by rewrite bool_decide_eq_false_2 by done. }
  assert (result (_eval_node H (BinOp (BinOp l FloorDiv r) Mult r) (at_import vars))
          = Return (VInt (a `div` n * n))) as Hmul.
  { by rewrite (eval_BinOp H _ Mult r _ _ _ op_mul Hdiv Hr eq_refl). }
  split.
  - rewrite (eval_BinOp H _ Add _ _ _ _ op_add Hmul Hmod eq_refl). simpl.
    do 2 f_equal. rewrite (Z.div_mod a n) at 3 by done. lia.
  - exists (a `mod` n). split; [done|]. split; intros Hsign.
    + by apply Z.mod_pos_bound.
    + by apply Z.mod_neg_bound.
Qed.

Lemma floor_division_and_modulo_witness :
  result (_eval_node cpython
            (BinOp (BinOp (BinOp (UnaryOp USub (int_lit 7)) FloorDiv (int_lit 2))
                      Mult (int_lit 2))
               Add (BinOp (UnaryOp USub (int_lit 7)) Mod (int_lit 2)))
            (at_import ∅))
  = Return (VInt (-7)).
Proof.
  destruct (floor_division_and_modulo cpython ∅ (UnaryOp USub (int_lit 7))
              (int_lit 2) (-7) 2) as [Hback _]; [by vm_compute|by vm_compute|lia|].
  exact Hback.
Defined.

(** ** The command line *)

Section CommandLineFacts.
Variable H : Host.
Variable C : Console.

Lemma with_kwargs_final (expr : value) σ :
  final (with_kwargs ∅ (evaluate H expr) σ)
  = State (g_BINOPS σ) (g_UNARYOPS σ) (g_ALLOWED_FUNCS σ) (g_ALLOWED_CONSTS σ) ∅.
Proof. unfold with_kwargs. apply evaluate_contained. Qed.

Lemma stdin_mode_cons (line : string) (rest : list string) σ :
  stdin_mode H C (line :: rest) σ =
  if bool_decide (strip C line = "") then stdin_mode H C rest σ
  else
    let o := with_kwargs ∅ (evaluate H (VStr (strip C line))) σ in
    let s := stdin_mode H C rest (final o) in
    match print_line C (result o) with
    | Return text => Session (text :: printed s) (ended s) (after s) (trace o ++ events s)
    | Raise e =>
        if is_Exception (exc_type e)
        then Session (("Error: " +:+ exc_msg e) :: printed s) (ended s) (after s)
               (trace o ++ events s)
        else if is_KeyboardInterrupt (exc_type e)
        then Session [] Completed (final o) (trace o)
        else Session [] (Uncaught e) (final o) (trace o)
    end.
Proof. reflexivity. Qed.

Lemma stdin_mode_report (lines : list string) σ :
  Forall (answered H C σ) (filter (λ line, line ≠ "") (strip C <$> lines)) →
  printed (stdin_mode H C lines σ)
  = report H C σ <$> filter (λ line, line ≠ "") (strip C <$> lines)
  ∧ ended (stdin_mode H C lines σ) = Completed.
Proof.
  revert σ. induction lines as [|line lines IH]; intros σ Hall; [done|].
  rewrite fmap_cons in Hall |- *. rewrite stdin_mode_cons.
  destruct (decide (strip C line = "")) as [Hblank|Hline].
  - rewrite filter_cons_False in Hall |- * by (by intros ?).
    rewrite bool_decide_eq_true_2 by done. by apply IH.
  - rewrite filter_cons_True in Hall |- * by done.
    rewrite bool_decide_eq_false_2 by done.
    apply Forall_cons in Hall as [Hanswered Hall].
    cbv zeta. rewrite with_kwargs_final.
    destruct (IH (fresh_call σ) Hall) as [IHp IHe].
    change (report H C (fresh_call σ)) with (report H C σ) in IHp.
    fold (fresh_call σ). rewrite fmap_cons.
    unfold answered in Hanswered.
    destruct (print_line C (result (with_kwargs ∅ (evaluate H (VStr (strip C line))) σ)))
      as [text|e] eqn:Hprint.
    + assert (report H C σ (strip C line) = text) as ->
        by (unfold report; by rewrite Hprint).
      cbn [printed ended]. by rewrite IHp, IHe.
    + assert (report H C σ (strip C line) = "Error: " +:+ exc_msg e) as ->
        by (unfold report; by rewrite Hprint).
      rewrite (Hanswered e eq_refl). cbn [printed ended]. by rewrite IHp, IHe.
Qed.

End CommandLineFacts.




